(** * GridRangeQuery: a uniform-grid index over 2-D line segments

    Shallow embedding of [grid_range_query.cc].  The C++ code computes with
    [float]; it is modelled here as IEEE-754 binary32 (round to nearest,
    ties to even) through the parameterised specification of floating-point
    arithmetic of the standard library ([SpecFloat], instantiated at
    [prec = 24], [emax = 128]).  Integers ([int], [size_t], [uint32_t]) are
    [Z] with the conversions of the source written out. *)

From Stdlib Require Import ZArith List Bool Lia.
From Stdlib Require Import QArith Qround Lqa.
From Stdlib Require Import Floats.SpecFloat.
Import ListNotations.

Local Open Scope Z_scope.

(** ** C++ [float]: binary32 *)

Module F32.

Definition prec : Z := 24.
Definition emax : Z := 128.

Definition float : Type := spec_float.

Definition add : float -> float -> float := SFadd prec emax.
Definition sub : float -> float -> float := SFsub prec emax.
Definition mul : float -> float -> float := SFmul prec emax.
Definition div : float -> float -> float := SFdiv prec emax.
Definition abs : float -> float := SFabs.

(** Comparisons; every comparison with a NaN is false. *)
Definition ltb : float -> float -> bool := SFltb.
Definition leb : float -> float -> bool := SFleb.
Definition eqb : float -> float -> bool := SFeqb.
Definition gtb (x y : float) : bool := SFltb y x.
Definition geb (x y : float) : bool := SFleb y x.

Definition nan : float := S754_nan.
Definition zero : float := S754_zero false.

(** Conversion of an integer to [float] (round to nearest even). *)
Definition of_Z (n : Z) : float := binary_normalize prec emax n 0 false.

Definition one : float := of_Z 1.

(** The [float] nearest to the decimal literal [n / d], for [n] and [d]
    below [2^24] (which convert exactly).  For the literals used in this
    file it is also the [float] the C++ literal, a [double], converts to. *)
Definition of_dec (n d : Z) : float := div (of_Z n) (of_Z d).

(** Truncation toward zero of a finite value, as an unbounded integer. *)
Definition trunc (x : float) : option Z :=
  match x with
  | S754_zero _ => Some 0
  | S754_finite s m e => Some (cond_Zopp s (Z.shiftl (Zpos m) e))
  | S754_infinity _ | S754_nan => None
  end.

(** Smallest integer not below a finite value. *)
Definition ceil (x : float) : option Z :=
  match x with
  | S754_zero _ => Some 0
  | S754_finite s m e => Some (- Z.shiftl (cond_Zopp (negb s) (Zpos m)) e)
  | S754_infinity _ | S754_nan => None
  end.

(** [int(x)]: the conversion of a [float] to a 32-bit [int] truncates; it
    is undefined ([None]) when the truncated value is not representable. *)
Definition to_int (x : float) : option Z :=
  match trunc x with
  | Some n => if (- 2 ^ 31 <=? n) && (n <? 2 ^ 31) then Some n else None
  | None => None
  end.

(** [size_t(ceil(x))]: undefined ([None]) for a NaN, an infinity, or a
    value whose ceiling is not representable in 64 unsigned bits. *)
Definition ceil_to_size (x : float) : option Z :=
  match ceil x with
  | Some n => if (0 <=? n) && (n <? 2 ^ 64) then Some n else None
  | None => None
  end.

(** The exact rational value of a finite [float] (0 otherwise). *)
Definition to_Q (x : float) : Q :=
  match x with
  | S754_finite s m e =>
      match e with
      | Zneg k => Qmake (cond_Zopp s (Zpos m)) (2 ^ k)
      | _ => inject_Z (cond_Zopp s (Zpos m) * 2 ^ e)
      end
  | _ => 0%Q
  end.

Definition is_finite (x : float) : bool :=
  match x with
  | S754_zero _ | S754_finite _ _ _ => true
  | _ => false
  end.

Definition is_zero (x : float) : bool :=
  match x with S754_zero _ => true | _ => false end.

(** A finite value other than zero, or an infinity. *)
Definition nonzero_number (x : float) : bool :=
  match x with
  | S754_finite _ _ _ | S754_infinity _ => true
  | S754_zero _ | S754_nan => false
  end.

Definition is_nan (x : float) : bool :=
  match x with S754_nan => true | _ => false end.

(** A finite value other than zero. *)
Definition finite_nonzero (x : float) : bool :=
  match x with S754_finite _ _ _ => true | _ => false end.

(** Rounding of a rational toward zero. *)
Definition Qtrunc (q : Q) : Z := if Qle_bool 0 q then Qfloor q else Qceiling q.

(** A finite value below zero. *)
Definition negative (x : float) : bool :=
  match x with S754_finite true _ _ => true | _ => false end.

(** [spec_float] also has mantissa/exponent pairs that are no binary32
    datum; [valid] keeps the canonical ones. *)
Definition valid (x : float) : bool := valid_binary prec emax x.

(** A binary32 number: a zero, a subnormal or a normal value. *)
Definition proper (x : float) : bool := valid x && is_finite x.

(** The value of a binary32 number in units of [2^-149], the least
    positive one. *)
Definition scaled (x : float) : Z :=
  match x with
  | S754_finite s m e => cond_Zopp s (Zpos m * 2 ^ (e + 149))
  | _ => 0
  end.

End F32.

(** ** Geometry primitives

    [Point], [LineSegment] and [BoundingBox] are the midgard types
    [PointLL], [LineSegment2<PointLL>] and [AABB2<PointLL>]; their headers
    are not part of the source file.  Coordinates are [float]s, as the
    source reads them ([float dx = p.x() - bbox_.minx()]). *)

Module Geometry.

Record Point : Type := mkPoint { x : F32.float; y : F32.float }.

Record LineSegment : Type := mkSegment { a : Point; b : Point }.

(** [BoundingBox(minx, miny, maxx, maxy)] *)
Record BoundingBox : Type :=
  mkBox { minx : F32.float; miny : F32.float;
          maxx : F32.float; maxy : F32.float }.

(** Modelled from the spec: the bounding box type's width accessor
    ([AABB2::Width], header not under src/). *)
Definition Width (bb : BoundingBox) : F32.float := F32.sub (maxx bb) (minx bb).

(** Modelled from the spec: the bounding box type's height accessor
    ([AABB2::Height], header not under src/). *)
Definition Height (bb : BoundingBox) : F32.float := F32.sub (maxy bb) (miny bb).

(** Modelled from the spec: the bounding box type's containment test
    ([AABB2::Contains], header not under src/).  The spec counts points
    on the upper bounds of the region as points of the region, so the
    test is closed on all four sides. *)
Definition Contains (bb : BoundingBox) (p : Point) : bool :=
  F32.geb (x p) (minx bb) && F32.geb (y p) (miny bb) &&
  F32.leb (x p) (maxx bb) && F32.leb (y p) (maxy bb).

(** Modelled from the spec: the segment-segment intersection test of the
    line-segment type ([LineSegment2::Intersect], header not under src/),
    "returning whether it intersects another segment and, if so, the
    intersection point".  The usual parametric test: solve
    [a + t (b - a) = a' + u (b' - a')], fail on parallel segments and on
    [t] or [u] outside [0, 1].  Neither the source nor the spec says
    whether the end points of the other segment count; here both do
    ([u] in [0, 1]), in [Intersect_half_open] below the last does not. *)
Definition Intersect (s e : LineSegment) : option Point :=
  let bx := F32.sub (x (b s)) (x (a s)) in
  let by_ := F32.sub (y (b s)) (y (a s)) in
  let dx := F32.sub (x (b e)) (x (a e)) in
  let dy := F32.sub (y (b e)) (y (a e)) in
  (* dp = perpendicular of d = (-dy, dx) *)
  let dpx := SFopp dy in
  let dpy := dx in
  let dtb := F32.add (F32.mul dpx bx) (F32.mul dpy by_) in
  if F32.eqb dtb F32.zero then None else
  let cx := F32.sub (x (a e)) (x (a s)) in
  let cy := F32.sub (y (a e)) (y (a s)) in
  let t := F32.div (F32.add (F32.mul dpx cx) (F32.mul dpy cy)) dtb in
  if F32.ltb t F32.zero || F32.gtb t F32.one then None else
  (* bp = perpendicular of b = (-by, bx) *)
  let u := F32.div (F32.add (F32.mul (SFopp by_) cx) (F32.mul bx cy)) dtb in
  if F32.ltb u F32.zero || F32.gtb u F32.one then None else
  Some (mkPoint (F32.add (x (a s)) (F32.mul bx t))
                (F32.add (y (a s)) (F32.mul by_ t))).

(** Modelled from the spec: the same intersection test
    ([LineSegment2::Intersect], header not under src/), with the other
    segment taken without its second end point ([u] in [0, 1)): going
    round a rectangle, each corner then belongs to one edge only. *)
Definition Intersect_half_open (s e : LineSegment) : option Point :=
  let bx := F32.sub (x (b s)) (x (a s)) in
  let by_ := F32.sub (y (b s)) (y (a s)) in
  let dx := F32.sub (x (b e)) (x (a e)) in
  let dy := F32.sub (y (b e)) (y (a e)) in
  let dpx := SFopp dy in
  let dpy := dx in
  let dtb := F32.add (F32.mul dpx bx) (F32.mul dpy by_) in
  if F32.eqb dtb F32.zero then None else
  let cx := F32.sub (x (a e)) (x (a s)) in
  let cy := F32.sub (y (a e)) (y (a s)) in
  let t := F32.div (F32.add (F32.mul dpx cx) (F32.mul dpy cy)) dtb in
  if F32.ltb t F32.zero || F32.gtb t F32.one then None else
  let u := F32.div (F32.add (F32.mul (SFopp by_) cx) (F32.mul bx cy)) dtb in
  if F32.ltb u F32.zero || F32.geb u F32.one then None else
  Some (mkPoint (F32.add (x (a s)) (F32.mul bx t))
                (F32.add (y (a s)) (F32.mul by_ t))).

End Geometry.

Import Geometry.

(** ** The grid *)

(** [using GraphId = uint32_t] *)
Definition GraphId : Type := Z.

(** The private members of [class GridRangeQuery]. *)
Record GridRangeQuery : Type := mkGrid {
  bbox_ : BoundingBox;
  cell_width_ : F32.float;
  cell_height_ : F32.float;
  num_rows_ : Z;                      (* size_t *)
  num_cols_ : Z;                      (* size_t *)
  items_ : list (list GraphId)        (* std::vector<std::vector<GraphId>> *)
}.

(** Arithmetic on [size_t] wraps modulo [2^64]. *)
Definition size_max : Z := 2 ^ 64.
Definition wrap_size (n : Z) : Z := n mod size_max.

(** [std::vector::resize(n)]: keep the first [n] entries, pad with
    value-initialised (empty) buckets. *)
Definition resize (n : nat) (items : list (list GraphId)) : list (list GraphId) :=
  firstn n items ++ repeat [] (n - length items).

(** [Init]; [items] is the bucket vector before the call (empty in the two
    constructors).  The result is [None] when a [ceil] result does not
    convert to [size_t] (undefined behaviour in C++). *)
Definition Init (items : list (list GraphId)) (bbox : BoundingBox)
    (cell_width cell_height : F32.float) : option GridRangeQuery :=
  match F32.ceil_to_size (F32.div (Width bbox) cell_width),
        F32.ceil_to_size (F32.div (Height bbox) cell_height) with
  | Some rows, Some cols =>
      Some {| bbox_ := bbox;
              cell_width_ := cell_width;
              cell_height_ := cell_height;
              num_rows_ := rows;
              num_cols_ := cols;
              items_ := resize (Z.to_nat (wrap_size (cols * rows))) items |}
  | _, _ => None
  end.

(** [GridRangeQuery(bbox, float cell_width, float cell_height)] *)
Definition new_by_cell_size (bbox : BoundingBox) (cell_width cell_height : F32.float)
  : option GridRangeQuery :=
  Init [] bbox cell_width cell_height.

(** [GridRangeQuery(bbox, uint32_t num_cols, uint32_t num_rows)]:
    "Divide the grid into num_cols by num_rows cells". *)
Definition new_by_counts (bbox : BoundingBox) (num_cols num_rows : Z)
  : option GridRangeQuery :=
  Init [] bbox (F32.div (Width bbox) (F32.of_Z num_cols))
               (F32.div (Height bbox) (F32.of_Z num_rows)).

(** [bbox()]: "Get bbox of the grid". *)
Definition bbox (g : GridRangeQuery) : BoundingBox := bbox_ g.

(** The number of columns of the grid, that is of cells along [x]: [Init]
    computes it from the width of the region, [GridCoordinates] indexes
    columns with [first], and it is the stride of the bucket layout
    [first + second * num_rows_].  The member that holds it is named
    [num_rows_]. *)
Definition columnCount (g : GridRangeQuery) : Z := num_rows_ g.

(** The number of rows of the grid, that is of cells along [y], computed
    from the height of the region.  The member that holds it is named
    [num_cols_]. *)
Definition rowCount (g : GridRangeQuery) : Z := num_cols_ g.

(** [GridCoordinates]: [None] when an [int(...)] conversion is undefined. *)
Definition GridCoordinates (g : GridRangeQuery) (p : Point) : option (Z * Z) :=
  let dx := F32.sub (x p) (minx (bbox_ g)) in
  let dy := F32.sub (y p) (miny (bbox_ g)) in
  match F32.to_int (F32.div dx (cell_width_ g)),
        F32.to_int (F32.div dy (cell_height_ g)) with
  | Some c, Some r => Some (c, r)
  | _, _ => None
  end.

(** [CellBoundingBox], for [int] arguments below [INT_MAX = 2^31 - 1].  At
    [INT_MAX] the [int] additions [i + 1] and [j + 1] of the source
    overflow, which is undefined; nothing below is stated there. *)
Definition CellBoundingBox (g : GridRangeQuery) (i j : Z) : BoundingBox :=
  mkBox (F32.add (minx (bbox_ g)) (F32.mul (F32.of_Z i) (cell_width_ g)))
        (F32.add (miny (bbox_ g)) (F32.mul (F32.of_Z j) (cell_height_ g)))
        (F32.add (minx (bbox_ g)) (F32.mul (F32.of_Z (i + 1)) (cell_width_ g)))
        (F32.add (miny (bbox_ g)) (F32.mul (F32.of_Z (j + 1)) (cell_height_ g))).

(** [Unlerp]: "Return t such that p = a + t * (b - a)". *)
Definition Unlerp (a b p : Point) : F32.float :=
  if F32.gtb (F32.abs (F32.sub (x b) (x a))) (F32.abs (F32.sub (y b) (y a)))
  then F32.div (F32.sub (x p) (x a)) (F32.sub (x b) (x a))
  else F32.div (F32.sub (y p) (y a)) (F32.sub (y b) (y a)).

(** [Query]: "Query all edges that intersects with the range"; the body is
    [return {};]. *)
Definition Query (g : GridRangeQuery) (range : BoundingBox) : list GraphId := [].

(** The four ways a call of [AddLineSegment] can go.  Each carries the
    grid as it is at that moment; [Undefined] carries the grid as it is
    when the undefined operation is reached, and nothing is known of the
    grid after it. *)
Inductive outcome : Type :=
| Returned (g : GridRangeQuery)          (* the call returns *)
| AssertionFailed (g : GridRangeQuery)   (* [assert] fails: the process aborts *)
| Undefined (g : GridRangeQuery)         (* undefined behaviour: [int] conversion
                                            or [items_] index out of range *)
| StillRunning (g : GridRangeQuery).     (* the loop has not exited within the
                                            given number of iterations *)

(** [items_[index].push_back(edgeid)]; [None] when [index] is not below
    [items_.size()]. *)
Fixpoint push_back_at (items : list (list GraphId)) (index : nat) (edgeid : GraphId)
  : option (list (list GraphId)) :=
  match items, index with
  | [], _ => None
  | bucket :: rest, O => Some ((bucket ++ [edgeid]) :: rest)
  | bucket :: rest, S n =>
      match push_back_at rest n edgeid with
      | Some rest' => Some (bucket :: rest')
      | None => None
      end
  end.

Definition set_items (g : GridRangeQuery) (items : list (list GraphId)) : GridRangeQuery :=
  {| bbox_ := bbox_ g; cell_width_ := cell_width_ g; cell_height_ := cell_height_ g;
     num_rows_ := num_rows_ g; num_cols_ := num_cols_ g; items_ := items |}.

(** The index expression [current_cell.first + current_cell.second * num_rows_]:
    both [int]s are converted to [size_t] and the arithmetic wraps. *)
Definition bucket_index (g : GridRangeQuery) (cell : Z * Z) : Z :=
  wrap_size (fst cell + snd cell * num_rows_ g).

(** The state of the loop of [AddLineSegment]: the grid and [current_point]. *)
Definition loop_state : Type := (GridRangeQuery * Point)%type.

(** One execution of the loop body.  The body records [edgeid] in the bucket
    of the cell of [current_point]; it has no assignment to [current_point]. *)
Definition loop_body (edgeid : GraphId) (st : loop_state) : option loop_state :=
  let '(g, current_point) := st in
  match GridCoordinates g current_point with
  | None => None
  | Some current_cell =>
      match push_back_at (items_ g) (Z.to_nat (bucket_index g current_cell)) edgeid with
      | None => None
      | Some items' => Some (set_items g items', current_point)
      end
  end.

(** The loop guard [Unlerp(start, end, current_point) < 1.0]. *)
Definition loop_guard (start end_ : Point) (st : loop_state) : bool :=
  F32.ltb (Unlerp start end_ (snd st)) F32.one.

(** [while (guard) { body }], run for at most [fuel] iterations. *)
Fixpoint loop (fuel : nat) (edgeid : GraphId) (start end_ : Point) (st : loop_state)
  : outcome :=
  if loop_guard start end_ st then
    match fuel with
    | O => StillRunning (fst st)
    | S fuel' =>
        match loop_body edgeid st with
        | None => Undefined (fst st)
        | Some st' => loop fuel' edgeid start end_ st'
        end
    end
  else Returned (fst st).

(** [AddLineSegment]: "Index a line segment into the grid".  The build line
    of the file defines no [NDEBUG]: the assertion is checked, and a failed
    assertion aborts the process. *)
Definition AddLineSegment (fuel : nat) (g : GridRangeQuery) (edgeid : GraphId)
    (segment : LineSegment) : outcome :=
  (* For now assume the segment is entirely inside the box *)
  if Contains (bbox_ g) (a segment) && Contains (bbox_ g) (b segment) then
    let start := a segment in
    let end_ := b segment in
    let current_point := start in
    loop fuel edgeid start end_ (g, current_point)
  else AssertionFailed g.

(** The grid an outcome carries. *)
Definition grid_of (o : outcome) : GridRangeQuery :=
  match o with
  | Returned g | AssertionFailed g | Undefined g | StillRunning g => g
  end.

(** No undefined operation has been reached: the grid of the outcome is
    the grid of the program. *)
Definition well_defined (o : outcome) : bool :=
  match o with
  | Undefined _ => false
  | Returned _ | AssertionFailed _ | StillRunning _ => true
  end.

(** A sequence of [AddLineSegment] calls on one grid; it ends with the
    first call that does not return. *)
Fixpoint AddLineSegments (fuel : nat) (g : GridRangeQuery)
    (calls : list (GraphId * LineSegment)) : outcome :=
  match calls with
  | [] => Returned g
  | (edgeid, segment) :: rest =>
      match AddLineSegment fuel g edgeid segment with
      | Returned g' => AddLineSegments fuel g' rest
      | o => o
      end
  end.

(** [CellLineSegmentIntersections], over the intersection test of the
    line-segment type. *)
Section CellIntersections.

Variable Intersect : LineSegment -> LineSegment -> option Point.

(** [if (segment.Intersect(e, intersect)) intersects.push_back(intersect);] *)
Definition push_if_intersect (segment e : LineSegment) (intersects : list Point)
  : list Point :=
  match Intersect segment e with
  | Some intersect => intersects ++ [intersect]
  | None => intersects
  end.

(** The four edges [e1] (bottom), [e2] (right), [e3] (top), [e4] (left). *)
Definition cell_edges (cell : BoundingBox) : list LineSegment :=
  [ mkSegment (mkPoint (minx cell) (miny cell)) (mkPoint (maxx cell) (miny cell));
    mkSegment (mkPoint (maxx cell) (miny cell)) (mkPoint (maxx cell) (maxy cell));
    mkSegment (mkPoint (maxx cell) (maxy cell)) (mkPoint (minx cell) (maxy cell));
    mkSegment (mkPoint (minx cell) (maxy cell)) (mkPoint (minx cell) (miny cell)) ].

Definition CellLineSegmentIntersections (g : GridRangeQuery) (i j : Z)
    (segment : LineSegment) : list Point :=
  let intersects := [] in
  let cell := CellBoundingBox g i j in
  let e1 := mkSegment (mkPoint (minx cell) (miny cell)) (mkPoint (maxx cell) (miny cell)) in
  let e2 := mkSegment (mkPoint (maxx cell) (miny cell)) (mkPoint (maxx cell) (maxy cell)) in
  let e3 := mkSegment (mkPoint (maxx cell) (maxy cell)) (mkPoint (minx cell) (maxy cell)) in
  let e4 := mkSegment (mkPoint (minx cell) (maxy cell)) (mkPoint (minx cell) (miny cell)) in
  let intersects := push_if_intersect segment e1 intersects in
  let intersects := push_if_intersect segment e2 intersects in
  let intersects := push_if_intersect segment e3 intersects in
  let intersects := push_if_intersect segment e4 intersects in
  intersects.

End CellIntersections.

(** Both coordinates are binary32 numbers. *)
Definition binary32_point (p : Point) : bool := F32.proper (x p) && F32.proper (y p).

(** Equal coordinates ([==] on [float]: [+0] and [-0] are equal). *)
Definition same_point (p q : Point) : bool :=
  F32.eqb (x q) (x p) && F32.eqb (y q) (y p).

(** Strictly inside a box: off all four sides. *)
Definition strictly_inside (bb : BoundingBox) (p : Point) : bool :=
  F32.ltb (minx bb) (x p) && F32.ltb (x p) (maxx bb) &&
  F32.ltb (miny bb) (y p) && F32.ltb (y p) (maxy bb).

(** ** The grid and the inputs of the tests *)

Definition pt (xn xd yn yd : Z) : Point := mkPoint (F32.of_dec xn xd) (F32.of_dec yn yd).

(** [BoundingBox bbox(0, 0, 100, 100)] *)
Definition test_bbox : BoundingBox :=
  mkBox (F32.of_Z 0) (F32.of_Z 0) (F32.of_Z 100) (F32.of_Z 100).

(** [GridRangeQuery grid(bbox, 100u, 100u)] *)
Definition test_grid : option GridRangeQuery := new_by_counts test_bbox 100 100.

(** ** Exact cell arithmetic

    [exact_on_axis coord lo size i]: along one axis, for the point
    coordinate [coord], the lower bound [lo] of the region, the cell size
    [size] and the cell index [i], every operand is a binary32 number, and
    the quotient of [GridCoordinates] and the two bounds of
    [CellBoundingBox] are computed without rounding error. *)
Definition exact_on_axis (coord lo size : F32.float) (i : Z) : bool :=
  let q := F32.div (F32.sub coord lo) size in
  let b0 := F32.add lo (F32.mul (F32.of_Z i) size) in
  let b1 := F32.add lo (F32.mul (F32.of_Z (i + 1)) size) in
  forallb F32.proper [coord; lo; size; b0; b1] &&
  F32.is_finite q &&
  Qeq_bool (F32.to_Q q * F32.to_Q size) (F32.to_Q coord - F32.to_Q lo) &&
  Qeq_bool (F32.to_Q b0) (F32.to_Q lo + inject_Z i * F32.to_Q size) &&
  Qeq_bool (F32.to_Q b1) (F32.to_Q lo + inject_Z (i + 1) * F32.to_Q size).

(** ** Grids and inputs used below *)

(** The 100 x 100 grid of unit cells of [TestGridTools]. *)
Definition unit_grid : GridRangeQuery :=
  {| bbox_ := test_bbox;
     cell_width_ := F32.one;
     cell_height_ := F32.one;
     num_rows_ := 100;
     num_cols_ := 100;
     items_ := repeat [] (Z.to_nat 10000) |}.

(** [BoundingBox(0, 0, 10, 10)] *)
Definition small_bbox : BoundingBox :=
  mkBox (F32.of_Z 0) (F32.of_Z 0) (F32.of_Z 10) (F32.of_Z 10).

(** [GridRangeQuery(small_bbox, 50u, 50u)]: cells of side [0.2f]. *)
Definition grid50 : GridRangeQuery :=
  {| bbox_ := small_bbox;
     cell_width_ := F32.of_dec 2 10;
     cell_height_ := F32.of_dec 2 10;
     num_rows_ := 50;
     num_cols_ := 50;
     items_ := repeat [] (Z.to_nat 2500) |}.

(** [GridRangeQuery(bbox, 3u, 3u)] over the same region: cells of side
    [100.0f / 3]. *)
Definition grid3 : GridRangeQuery :=
  {| bbox_ := test_bbox;
     cell_width_ := F32.of_dec 100 3;
     cell_height_ := F32.of_dec 100 3;
     num_rows_ := 3;
     num_cols_ := 3;
     items_ := repeat [] (Z.to_nat 9) |}.

(** [BoundingBox(0, 0, 200, 100)]: twice as wide as high. *)
Definition wide_bbox : BoundingBox :=
  mkBox (F32.of_Z 0) (F32.of_Z 0) (F32.of_Z 200) (F32.of_Z 100).

(** [GridRangeQuery(wide_bbox, 1.0f, 1.0f)], also
    [GridRangeQuery(wide_bbox, 200u, 100u)]. *)
Definition wide_grid : GridRangeQuery :=
  {| bbox_ := wide_bbox;
     cell_width_ := F32.one;
     cell_height_ := F32.one;
     num_rows_ := 200;
     num_cols_ := 100;
     items_ := repeat [] (Z.to_nat 20000) |}.

(** The segment [(2, 3) - (5, 3)]: both endpoints on the grid line [y = 3]. *)
Definition grid_line_segment : LineSegment := mkSegment (pt 2 1 3 1) (pt 5 1 3 1).

(** The zero-length segment at [(5.5, 5.5)]. *)
Definition point_segment : LineSegment := mkSegment (pt 55 10 55 10) (pt 55 10 55 10).

(** The segment [(150, 50) - (10, 10)], whose first endpoint is outside. *)
Definition outside_segment : LineSegment := mkSegment (pt 150 1 50 1) (pt 10 1 10 1).

(** The segment [(2.5, 3.5) - (10, 3.5)] of [TestGridTools]. *)
Definition test_segment : LineSegment := mkSegment (pt 25 10 35 10) (pt 10 1 35 10).

(** The diagonal [(2, 3) - (3, 4)] of cell (2, 3) of the unit grid. *)
Definition diagonal_segment : LineSegment := mkSegment (pt 2 1 3 1) (pt 3 1 4 1).

(** The segment [(99.99999, 90) - (99.99999, 95)]; [99.99999f] is the
    largest [float] below 100. *)
Definition edge_segment : LineSegment :=
  mkSegment (pt 9999999 100000 90 1) (pt 9999999 100000 95 1).

(** The segment [(0, 1.5) - (4.8, 5.1)], through the corner (2, 3) of cell
    (2, 3) of the unit grid. *)
Definition corner_segment : LineSegment := mkSegment (pt 0 1 15 10) (pt 48 10 51 10).

(** The segment [(100, 100) - (50, 50)], from the upper corner of the test
    region. *)
Definition upper_corner_segment : LineSegment :=
  mkSegment (pt 100 1 100 1) (pt 50 1 50 1).

(** The segment [(99.99999, 50) - (99.99999, 55)]. *)
Definition wrapping_segment : LineSegment :=
  mkSegment (pt 9999999 100000 50 1) (pt 9999999 100000 55 1).

(** The point [(-0.5, -0.5)], half a cell outside the test region. *)
Definition outside_point : Point := pt (-1) 2 (-1) 2.

(** ** Facts about binary32 arithmetic *)

Module F32Facts.

(** [x - x] is [+0] for a finite [x] and a NaN otherwise. *)
Lemma sub_diag (v : F32.float) : F32.sub v v = F32.zero \/ F32.sub v v = F32.nan.
Proof.
  destruct v as [s | s | | s m e]; cbn.
  - left. now destruct s.
  - right. now destruct s.
  - now right.
  - left. unfold F32.sub, SFsub. now rewrite Z.sub_diag.
Qed.

Lemma sub_diag_finite (v : F32.float) :
  F32.is_finite v = true -> F32.sub v v = F32.zero.
Proof.
  destruct v as [s | s | | s m e]; try discriminate; intros _.
  - now destruct s.
  - unfold F32.sub, SFsub. now rewrite Z.sub_diag.
Qed.

(** No value is strictly below itself. *)
Lemma ltb_irrefl (v : F32.float) : F32.ltb v v = false.
Proof.
  unfold F32.ltb, SFltb.
  destruct v as [s | s | | s m e]; cbn; try reflexivity.
  - now destruct s.
  - destruct s; rewrite Z.compare_refl;
      change (Pos.compare_cont Eq m m) with (Pos.compare m m);
      now rewrite Pos.compare_refl.
Qed.

Lemma proper_inv (v : F32.float) :
  F32.proper v = true -> F32.valid v = true /\ F32.is_finite v = true.
Proof. unfold F32.proper. now rewrite andb_true_iff. Qed.

Lemma digits2_pos_size (m : positive) : digits2_pos m = Pos.size m.
Proof. induction m; cbn; congruence. Qed.

(** The mantissa of a valid finite value has at most 24 bits, and exactly
    24 unless the exponent is the least one. *)
Lemma bounded_inv (m : positive) (e : Z) :
  bounded F32.prec F32.emax m e = true ->
  -149 <= e <= 104 /\ Zpos m < 2 ^ 24 /\ (-149 < e -> 2 ^ 23 <= Zpos m).
Proof.
  unfold bounded, canonical_mantissa, fexp, emin, F32.prec, F32.emax.
  rewrite andb_true_iff, Z.eqb_eq, Z.leb_le, digits2_pos_size.
  intros [Hc He].
  pose proof (Pos.size_gt m) as Hgt. pose proof (Pos.size_le m) as Hle.
  apply Pos2Z.pos_lt_pos in Hgt. apply Pos2Z.pos_le_pos in Hle.
  rewrite Pos2Z.inj_pow in Hgt, Hle. rewrite Pos2Z.inj_xO in Hle.
  set (d := Zpos (Pos.size m)) in *.
  assert (Hd : 0 < d) by (unfold d; lia).
  split; [lia |]. split.
  - apply Z.lt_le_trans with (1 := Hgt). apply Z.pow_le_mono_r; lia.
  - intros Hlt. assert (d = 24) as Hd24 by lia. rewrite Hd24 in Hle.
    change (2 ^ 24) with (2 * 2 ^ 23) in Hle. lia.
Qed.

Lemma scaled_lt (m1 m2 : positive) (e1 e2 : Z) :
  bounded F32.prec F32.emax m1 e1 = true ->
  bounded F32.prec F32.emax m2 e2 = true ->
  e1 < e2 ->
  Zpos m1 * 2 ^ (e1 + 149) < Zpos m2 * 2 ^ (e2 + 149).
Proof.
  intros H1 H2 Hlt.
  destruct (bounded_inv _ _ H1) as (He1 & Hm1 & _).
  destruct (bounded_inv _ _ H2) as (He2 & _ & Hm2).
  specialize (Hm2 ltac:(lia)).
  assert (Hp1 : 0 < 2 ^ (e1 + 149)) by (apply Z.pow_pos_nonneg; lia).
  apply Z.lt_le_trans with (2 ^ 24 * 2 ^ (e1 + 149)).
  - apply Z.mul_lt_mono_pos_r; assumption.
  - apply Z.le_trans with (2 ^ 23 * 2 ^ (e2 + 149)).
    + rewrite <- !Z.pow_add_r by lia. apply Z.pow_le_mono_r; lia.
    + apply Z.mul_le_mono_nonneg_r; [apply Z.pow_nonneg; lia | assumption].
Qed.

Lemma compare_pos_scaled (m1 m2 : positive) (e1 e2 : Z) :
  bounded F32.prec F32.emax m1 e1 = true ->
  bounded F32.prec F32.emax m2 e2 = true ->
  match e1 ?= e2 with
  | Lt => Lt
  | Gt => Gt
  | Eq => Pos.compare_cont Eq m1 m2
  end = (Zpos m1 * 2 ^ (e1 + 149) ?= Zpos m2 * 2 ^ (e2 + 149)).
Proof.
  intros H1 H2. destruct (Z.compare_spec e1 e2) as [E | L | G].
  - subst e2. destruct (bounded_inv _ _ H1) as (He1 & _).
    assert (Hp : 0 < 2 ^ (e1 + 149)) by (apply Z.pow_pos_nonneg; lia).
    change (Pos.compare_cont Eq m1 m2) with (Pos.compare m1 m2).
    destruct (Pos.compare_spec m1 m2) as [E | L | G]; symmetry.
    + subst m2. apply Z.compare_refl.
    + apply Z.compare_lt_iff. apply Z.mul_lt_mono_pos_r; [exact Hp | lia].
    + apply Z.compare_gt_iff. apply Z.mul_lt_mono_pos_r; [exact Hp | lia].
  - symmetry. apply Z.compare_lt_iff. now apply scaled_lt.
  - symmetry. apply Z.compare_gt_iff. now apply scaled_lt.
Qed.

(** On valid finite values the comparison of [SpecFloat] is the comparison
    of the values. *)
Lemma compare_scaled (v w : F32.float) :
  F32.valid v = true -> F32.valid w = true ->
  F32.is_finite v = true -> F32.is_finite w = true ->
  SFcompare v w = Some (F32.scaled v ?= F32.scaled w).
Proof.
  destruct v as [s1 | s1 | | s1 m1 e1], w as [s2 | s2 | | s2 m2 e2];
    try discriminate; cbn [F32.valid valid_binary F32.is_finite SFcompare F32.scaled];
    intros Hv Hw _ _.
  - reflexivity.
  - destruct (bounded_inv _ _ Hw) as (He & _).
    assert (0 < Zpos m2 * 2 ^ (e2 + 149))
      by (apply Z.mul_pos_pos; [lia | apply Z.pow_pos_nonneg; lia]).
    destruct s2; cbn [cond_Zopp]; f_equal; symmetry;
      [apply Z.compare_gt_iff | apply Z.compare_lt_iff]; lia.
  - destruct (bounded_inv _ _ Hv) as (He & _).
    assert (0 < Zpos m1 * 2 ^ (e1 + 149))
      by (apply Z.mul_pos_pos; [lia | apply Z.pow_pos_nonneg; lia]).
    destruct s1; cbn [cond_Zopp]; f_equal; symmetry;
      [apply Z.compare_lt_iff | apply Z.compare_gt_iff]; lia.
  - destruct (bounded_inv _ _ Hv) as (He1 & _), (bounded_inv _ _ Hw) as (He2 & _).
    assert (0 < Zpos m1 * 2 ^ (e1 + 149))
      by (apply Z.mul_pos_pos; [lia | apply Z.pow_pos_nonneg; lia]).
    assert (0 < Zpos m2 * 2 ^ (e2 + 149))
      by (apply Z.mul_pos_pos; [lia | apply Z.pow_pos_nonneg; lia]).
    destruct s1, s2; cbn [cond_Zopp]; f_equal.
    + rewrite Z.compare_opp. rewrite <- (compare_pos_scaled m2 m1 e2 e1 Hw Hv).
      rewrite (Z.compare_antisym e1 e2).
      destruct (e1 ?= e2); cbn [CompOpp]; try reflexivity.
      change (Pos.compare_cont Eq m1 m2) with (Pos.compare m1 m2).
      change (Pos.compare_cont Eq m2 m1) with (Pos.compare m2 m1).
      now rewrite (Pos.compare_antisym m1 m2).
    + symmetry. apply Z.compare_lt_iff. lia.
    + symmetry. apply Z.compare_gt_iff. lia.
    + now apply compare_pos_scaled.
Qed.

Lemma cond_Zopp_mul (s : bool) (n k : Z) : cond_Zopp s (n * k) = cond_Zopp s n * k.
Proof. destruct s; cbn; lia. Qed.

(** The value of a valid finite [float] in units of [2^-149]. *)
Lemma to_Q_scaled (v : F32.float) :
  F32.valid v = true -> (F32.to_Q v == F32.scaled v # 2 ^ 149)%Q.
Proof.
  destruct v as [s | s | | s m e]; try reflexivity.
  cbn [F32.valid valid_binary]. intros Hv.
  destruct (bounded_inv _ _ Hv) as (He & _).
  unfold F32.to_Q, F32.scaled. rewrite cond_Zopp_mul.
  destruct e as [| k | k]; unfold Qeq; cbn [Qnum Qden inject_Z].
  - change (0 + 149) with 149. rewrite Pos2Z.inj_pow. lia.
  - rewrite Z.pow_add_r by lia. rewrite Pos2Z.inj_pow. lia.
  - rewrite !Pos2Z.inj_pow.
    replace (2 ^ 149) with (2 ^ (Zneg k + 149) * 2 ^ Zpos k)
      by (rewrite <- Z.pow_add_r by lia; f_equal; lia).
    lia.
Qed.

Lemma compare_to_Q (v w : F32.float) :
  F32.valid v = true -> F32.valid w = true ->
  F32.is_finite v = true -> F32.is_finite w = true ->
  SFcompare v w = Some (F32.to_Q v ?= F32.to_Q w)%Q.
Proof.
  intros Hv Hw Fv Fw. rewrite (compare_scaled v w Hv Hw Fv Fw). f_equal.
  rewrite (Qcompare_comp _ _ (to_Q_scaled v Hv) _ _ (to_Q_scaled w Hw)).
  unfold Qcompare; cbn [Qnum Qden].
  set (d := Zpos (2 ^ 149)).
  destruct (Z.compare_spec (F32.scaled v) (F32.scaled w)) as [E | L | G]; symmetry.
  - rewrite E. apply Z.compare_refl.
  - apply Z.compare_lt_iff. apply Z.mul_lt_mono_pos_r; [reflexivity | exact L].
  - apply Z.compare_gt_iff. apply Z.mul_lt_mono_pos_r; [reflexivity | exact G].
Qed.

Lemma leb_to_Q (v w : F32.float) :
  F32.valid v = true -> F32.valid w = true ->
  F32.is_finite v = true -> F32.is_finite w = true ->
  F32.leb v w = true <-> (F32.to_Q v <= F32.to_Q w)%Q.
Proof.
  intros Hv Hw Fv Fw. unfold F32.leb, SFleb.
  rewrite (compare_to_Q v w Hv Hw Fv Fw), Qle_alt.
  destruct (F32.to_Q v ?= F32.to_Q w)%Q; split; congruence.
Qed.

Lemma ltb_to_Q (v w : F32.float) :
  F32.valid v = true -> F32.valid w = true ->
  F32.is_finite v = true -> F32.is_finite w = true ->
  F32.ltb v w = true <-> (F32.to_Q v < F32.to_Q w)%Q.
Proof.
  intros Hv Hw Fv Fw. unfold F32.ltb, SFltb.
  rewrite (compare_to_Q v w Hv Hw Fv Fw), Qlt_alt.
  destruct (F32.to_Q v ?= F32.to_Q w)%Q; split; congruence.
Qed.

(** For a zero or a positive finite value, truncation is the floor. *)
Lemma trunc_floor (v : F32.float) :
  F32.is_finite v = true -> (0 <= F32.to_Q v)%Q ->
  F32.trunc v = Some (Qfloor (F32.to_Q v)).
Proof.
  destruct v as [s | s | | s m e]; try discriminate; intros _ Hpos.
  - reflexivity.
  - assert (s = false) as ->.
    { destruct s; [exfalso | reflexivity]. revert Hpos. unfold F32.to_Q.
      destruct e as [| k | k]; unfold Qle; cbn [Qnum Qden inject_Z cond_Zopp];
        try (pose proof (Z.pow_pos_nonneg 2 (Zpos k) ltac:(lia) ltac:(lia))); nia. }
    cbn [F32.trunc F32.to_Q cond_Zopp]. f_equal.
    destruct e as [| k | k].
    + now rewrite Qfloor_Z, Z.shiftl_mul_pow2.
    + now rewrite Qfloor_Z, Z.shiftl_mul_pow2.
    + unfold Qfloor. rewrite Pos2Z.inj_pow.
      now rewrite Z.shiftl_div_pow2.
Qed.

Lemma binary_round_aux_not_negative (m e : Z) (l : location) :
  F32.negative (binary_round_aux F32.prec F32.emax false m e l) = false.
Proof.
  unfold binary_round_aux.
  destruct (shr_fexp _ _ m e l) as [mrs' e'].
  destruct (shr_fexp _ _ _ e' loc_Exact) as [mrs'' e''].
  destruct (shr_m mrs''); [reflexivity | | reflexivity].
  now destruct (e'' <=? _).
Qed.

Lemma iter_xO (m d : positive) : Zpos (Pos.iter xO m d) = Zpos m * 2 ^ Zpos d.
Proof.
  rewrite <- Z.shiftl_mul_pow2 by lia. cbn [Z.shiftl].
  now apply Pos.iter_swap_gen.
Qed.

Lemma shl_align_scaled (m : positive) (e ez : Z) :
  ez <= e -> -149 <= ez ->
  Zpos (fst (shl_align m e ez)) * 2 ^ (ez + 149) = Zpos m * 2 ^ (e + 149).
Proof.
  intros Hle Hez. unfold shl_align.
  destruct (ez - e) as [| d | d] eqn:E; cbn [fst].
  - f_equal. f_equal. lia.
  - lia.
  - rewrite iter_xO. rewrite <- Z.mul_assoc, <- Z.pow_add_r by lia.
    f_equal. f_equal. lia.
Qed.

(** The difference of two valid finite values, the first not below the
    second, is not a finite value below zero. *)
Lemma sub_not_negative (v w : F32.float) :
  F32.valid v = true -> F32.valid w = true ->
  F32.is_finite v = true -> F32.is_finite w = true ->
  F32.geb v w = true ->
  F32.negative (F32.sub v w) = false.
Proof.
  intros Hv Hw Fv Fw Hge. unfold F32.geb, SFleb in Hge.
  rewrite (compare_scaled w v Hw Hv Fw Fv) in Hge.
  assert (Hle : F32.scaled w <= F32.scaled v).
  { unfold Z.le. revert Hge.
    destruct (F32.scaled w ?= F32.scaled v); cbn; congruence. }
  clear Hge.
  destruct v as [s1 | s1 | | s1 m1 e1], w as [s2 | s2 | | s2 m2 e2];
    try discriminate; cbn [F32.valid valid_binary F32.scaled] in *.
  - now destruct s1, s2.
  - destruct (bounded_inv _ _ Hw) as (He & _).
    assert (0 < Zpos m2 * 2 ^ (e2 + 149))
      by (apply Z.mul_pos_pos; [lia | apply Z.pow_pos_nonneg; lia]).
    destruct s1, s2; cbn [cond_Zopp] in Hle; try lia; reflexivity.
  - destruct (bounded_inv _ _ Hv) as (He & _).
    assert (0 < Zpos m1 * 2 ^ (e1 + 149))
      by (apply Z.mul_pos_pos; [lia | apply Z.pow_pos_nonneg; lia]).
    destruct s1; cbn [cond_Zopp] in Hle; try lia; reflexivity.
  - destruct (bounded_inv _ _ Hv) as (He1 & _), (bounded_inv _ _ Hw) as (He2 & _).
    unfold F32.sub, SFsub. set (ez := Z.min e1 e2).
    pose proof (shl_align_scaled m1 e1 ez ltac:(lia) ltac:(lia)) as A1.
    pose proof (shl_align_scaled m2 e2 ez ltac:(lia) ltac:(lia)) as A2.
    set (a1 := fst (shl_align m1 e1 ez)) in *.
    set (a2 := fst (shl_align m2 e2 ez)) in *.
    rewrite <- A1, <- A2, !cond_Zopp_mul in Hle.
    assert (Hp : 0 < 2 ^ (ez + 149)) by (apply Z.pow_pos_nonneg; lia).
    apply Z.mul_le_mono_pos_r in Hle; [| exact Hp].
    destruct (cond_Zopp s1 (Zpos a1) - cond_Zopp s2 (Zpos a2)) as [| d | d] eqn:E;
      cbn [binary_normalize].
    + reflexivity.
    + unfold binary_round. destruct (shl_align d ez _) as [mz ez'].
      apply binary_round_aux_not_negative.
    + lia.
Qed.

(** Dividing such a value by a positive one gives no finite value below
    zero either. *)
Lemma div_not_negative (v w : F32.float) :
  F32.negative v = false -> F32.ltb F32.zero w = true ->
  F32.negative (F32.div v w) = false.
Proof.
  intros Hv Hw.
  destruct w as [s2 | s2 | | s2 m2 e2]; try discriminate;
    (destruct s2; [discriminate |]);
    destruct v as [s1 | s1 | | s1 m1 e1]; try reflexivity.
  destruct s1; [discriminate |].
  unfold F32.div, SFdiv. destruct (SFdiv_core_binary _ _ _ _ _ _) as [[mz ez] lz].
  apply binary_round_aux_not_negative.
Qed.

Lemma not_negative_to_Q (v : F32.float) : F32.negative v = false -> (0 <= F32.to_Q v)%Q.
Proof.
  destruct v as [s | s | | s m e]; try (intros _; apply Qle_refl).
  destruct s; [discriminate |]. intros _. unfold F32.to_Q. cbn [cond_Zopp].
  destruct e as [| k | k]; unfold Qle; cbn [Qnum Qden inject_Z]; lia.
Qed.

(** [F32.ceil] is the ceiling of the value. *)
Lemma ceil_Qceiling (v : F32.float) :
  F32.is_finite v = true -> F32.ceil v = Some (Qceiling (F32.to_Q v)).
Proof.
  destruct v as [s | s | | s m e]; try discriminate; intros _; [reflexivity |].
  cbn [F32.ceil F32.to_Q]. f_equal. unfold Qceiling. f_equal.
  assert (Hs : cond_Zopp (negb s) (Zpos m) = - cond_Zopp s (Zpos m))
    by (destruct s; reflexivity).
  rewrite Hs. destruct e as [| k | k].
  - change (- inject_Z (cond_Zopp s (Zpos m) * 2 ^ 0))%Q
      with (inject_Z (- (cond_Zopp s (Zpos m) * 2 ^ 0))).
    rewrite Qfloor_Z, Z.shiftl_mul_pow2 by lia. lia.
  - change (- inject_Z (cond_Zopp s (Zpos m) * 2 ^ Zpos k))%Q
      with (inject_Z (- (cond_Zopp s (Zpos m) * 2 ^ Zpos k))).
    rewrite Qfloor_Z, Z.shiftl_mul_pow2 by lia. lia.
  - change (- (cond_Zopp s (Zpos m) # 2 ^ k))%Q
      with (- cond_Zopp s (Zpos m) # 2 ^ k)%Q.
    unfold Qfloor. rewrite Pos2Z.inj_pow. now rewrite Z.shiftl_div_pow2.
Qed.

Lemma ceil_to_size_Qceiling (v : F32.float) (n : Z) :
  F32.ceil_to_size v = Some n -> n = Qceiling (F32.to_Q v) /\ 0 <= n < 2 ^ 64.
Proof.
  unfold F32.ceil_to_size. destruct (F32.ceil v) as [k |] eqn:E; [| discriminate].
  assert (Hfin : F32.is_finite v = true) by (destruct v; try discriminate; reflexivity).
  rewrite (ceil_Qceiling v Hfin) in E. injection E as <-.
  destruct (Z.leb_spec 0 (Qceiling (F32.to_Q v)));
    destruct (Z.ltb_spec (Qceiling (F32.to_Q v)) (2 ^ 64)); cbn [andb];
    try discriminate.
  intros [= <-]. split; [reflexivity | lia].
Qed.

Lemma to_int_trunc (v : F32.float) (n : Z) :
  F32.to_int v = Some n -> F32.trunc v = Some n.
Proof.
  unfold F32.to_int. destruct (F32.trunc v) as [k |]; [| discriminate].
  destruct (_ && _); [now intros [= ->] | discriminate].
Qed.

Lemma trunc_to_int (v : F32.float) (n : Z) :
  F32.trunc v = Some n -> - 2 ^ 31 <= n < 2 ^ 31 -> F32.to_int v = Some n.
Proof.
  intros H Hn. unfold F32.to_int. rewrite H.
  destruct (Z.leb_spec (- 2 ^ 31) n), (Z.ltb_spec n (2 ^ 31)); try lia.
  reflexivity.
Qed.

(** *** Subtraction and zero *)

Lemma shr_1_m (r : shr_record) : 0 <= shr_m r -> shr_m (shr_1 r) = shr_m r / 2.
Proof.
  destruct r as [m rb sb]; cbn [shr_m]. intros Hm.
  destruct m as [| p | p]; [reflexivity | | lia].
  destruct p as [p | p |]; cbn [shr_1 shr_m].
  - rewrite Pos2Z.inj_xI. apply Z.div_unique with 1; lia.
  - rewrite Pos2Z.inj_xO. apply Z.div_unique with 0; lia.
  - reflexivity.
Qed.

Lemma iter_pos_shr_1_m (k : positive) :
  forall r, 0 <= shr_m r -> shr_m (iter_pos shr_1 k r) = shr_m r / 2 ^ Zpos k.
Proof.
  induction k as [k IH | k IH |]; intros r Hr; cbn [iter_pos].
  - assert (H1 : 0 <= shr_m (shr_1 r))
      by (rewrite shr_1_m by assumption; apply Z.div_pos; lia).
    assert (H2 : 0 <= shr_m (iter_pos shr_1 k (shr_1 r)))
      by (rewrite IH by assumption; apply Z.div_pos; [assumption | lia]).
    rewrite IH, IH, shr_1_m by assumption.
    rewrite !Z.div_div by lia. f_equal.
    rewrite Pos2Z.inj_xI, <- Z.pow_add_r, <- (Z.pow_1_r 2) at 1 by lia.
    rewrite <- Z.pow_add_r by lia. f_equal. lia.
  - assert (H2 : 0 <= shr_m (iter_pos shr_1 k r))
      by (rewrite IH by assumption; apply Z.div_pos; [assumption | lia]).
    rewrite IH, IH by assumption.
    rewrite Z.div_div by lia. f_equal.
    rewrite Pos2Z.inj_xO, <- Z.pow_add_r by lia. f_equal. lia.
  - rewrite shr_1_m by assumption. reflexivity.
Qed.

Lemma shr_record_of_loc_m (m : Z) (l : location) : shr_m (shr_record_of_loc m l) = m.
Proof. destruct l as [| []]; reflexivity. Qed.

(** The right shift that brings a mantissa to 24 bits leaves a positive
    mantissa positive, as long as the exponent is not below the least. *)
Lemma shr_fexp_pos (m e : Z) (l : location) :
  0 < m -> -149 <= e ->
  0 < shr_m (fst (shr_fexp F32.prec F32.emax m e l)) /\
  -149 <= snd (shr_fexp F32.prec F32.emax m e l).
Proof.
  intros Hm He. unfold shr_fexp, shr, fexp, emin, F32.prec, F32.emax.
  destruct m as [| p | p]; try lia. cbn [Zdigits2].
  rewrite digits2_pos_size.
  pose proof (Pos.size_le p) as Hle. apply Pos2Z.pos_le_pos in Hle.
  rewrite Pos2Z.inj_pow in Hle. change (Zpos p~0) with (2 * Zpos p) in Hle.
  set (d := Zpos (Pos.size p)) in *.
  assert (Hd : 0 < d) by (unfold d; lia).
  replace d with (Z.succ (d - 1)) in Hle by lia.
  rewrite Z.pow_succ_r in Hle by lia.
  destruct (Z.max (d + e - 24) (3 - 128 - 24) - e) as [| k | k] eqn:Ek;
    cbn [fst snd]; rewrite ?shr_record_of_loc_m; try (split; lia).
  rewrite iter_pos_shr_1_m by (rewrite shr_record_of_loc_m; lia).
  rewrite shr_record_of_loc_m. split; [| lia].
  assert (Hk : Zpos k = d - 24) by lia.
  apply Z.div_str_pos. split; [apply Z.pow_pos_nonneg; lia |].
  apply Z.le_trans with (2 ^ (d - 1)).
  - apply Z.pow_le_mono_r; lia.
  - lia.
Qed.

Lemma round_nearest_even_pos (m : Z) (l : location) :
  0 < m -> 0 < round_nearest_even m l.
Proof.
  intros Hm. destruct l as [| []]; cbn [round_nearest_even]; try lia.
  destruct (Z.even m); lia.
Qed.

(** Rounding a positive mantissa at an exponent not below the least gives
    a finite value other than zero, or an infinity. *)
Lemma binary_round_aux_nonzero (s : bool) (m e : Z) (l : location) :
  0 < m -> -149 <= e ->
  F32.nonzero_number (binary_round_aux F32.prec F32.emax s m e l) = true.
Proof.
  intros Hm He. unfold binary_round_aux.
  destruct (shr_fexp_pos m e l Hm He) as [H1 H1e].
  destruct (shr_fexp F32.prec F32.emax m e l) as [mrs' e']. cbn [fst snd] in *.
  pose proof (round_nearest_even_pos _ (loc_of_shr_record mrs') H1) as H2.
  destruct (shr_fexp_pos _ e' loc_Exact H2 H1e) as [H3 _].
  destruct (shr_fexp F32.prec F32.emax _ e' loc_Exact) as [mrs'' e''].
  cbn [fst] in H3.
  destruct (shr_m mrs''); try lia. now destruct (e'' <=? _).
Qed.

Lemma binary_normalize_nonzero (n e : Z) (szero : bool) :
  n <> 0 -> -149 <= e ->
  F32.nonzero_number (binary_normalize F32.prec F32.emax n e szero) = true.
Proof.
  intros Hn He.
  assert (Hround : forall s p,
             F32.nonzero_number (binary_round F32.prec F32.emax s p e) = true).
  { intros s p. unfold binary_round, shl_align.
    set (e' := fexp F32.prec F32.emax (Zpos (digits2_pos p) + e)).
    assert (He' : -149 <= e') by (unfold e', fexp, emin, F32.prec, F32.emax; lia).
    destruct (e' - e); apply binary_round_aux_nonzero; lia. }
  destruct n; [contradiction | |]; apply Hround.
Qed.

(** The difference of two binary32 numbers is a zero when they are equal;
    otherwise it is a finite value other than zero, or an infinity. *)
Lemma sub_nonzero (v w : F32.float) :
  F32.proper v = true -> F32.proper w = true ->
  F32.nonzero_number (F32.sub v w) = negb (F32.eqb v w) /\
  F32.is_zero (F32.sub v w) = F32.eqb v w.
Proof.
  intros Pv Pw.
  destruct (proper_inv _ Pv) as [Hv Fv], (proper_inv _ Pw) as [Hw Fw].
  unfold F32.eqb, SFeqb. rewrite (compare_scaled v w Hv Hw Fv Fw).
  destruct v as [s1 | s1 | | s1 m1 e1], w as [s2 | s2 | | s2 m2 e2];
    try discriminate; cbn [F32.valid valid_binary F32.scaled] in *.
  - now destruct s1, s2.
  - destruct (bounded_inv _ _ Hw) as (He & _).
    assert (0 < Zpos m2 * 2 ^ (e2 + 149))
      by (apply Z.mul_pos_pos; [lia | apply Z.pow_pos_nonneg; lia]).
    destruct (Z.compare_spec 0 (cond_Zopp s2 (Zpos m2 * 2 ^ (e2 + 149))));
      try (split; reflexivity).
    destruct s2; cbn [cond_Zopp] in *; lia.
  - destruct (bounded_inv _ _ Hv) as (He & _).
    assert (0 < Zpos m1 * 2 ^ (e1 + 149))
      by (apply Z.mul_pos_pos; [lia | apply Z.pow_pos_nonneg; lia]).
    destruct (Z.compare_spec (cond_Zopp s1 (Zpos m1 * 2 ^ (e1 + 149))) 0);
      try (split; reflexivity).
    destruct s1; cbn [cond_Zopp] in *; lia.
  - destruct (bounded_inv _ _ Hv) as (He1 & _), (bounded_inv _ _ Hw) as (He2 & _).
    unfold F32.sub, SFsub. set (ez := Z.min e1 e2).
    pose proof (shl_align_scaled m1 e1 ez ltac:(lia) ltac:(lia)) as A1.
    pose proof (shl_align_scaled m2 e2 ez ltac:(lia) ltac:(lia)) as A2.
    set (a1 := fst (shl_align m1 e1 ez)) in *.
    set (a2 := fst (shl_align m2 e2 ez)) in *.
    rewrite <- A1, <- A2, !cond_Zopp_mul.
    assert (Hp : 0 < 2 ^ (ez + 149)) by (apply Z.pow_pos_nonneg; lia).
    set (c1 := cond_Zopp s1 (Zpos a1)). set (c2 := cond_Zopp s2 (Zpos a2)).
    destruct (Z.eq_dec c1 c2) as [E | N].
    + rewrite E, Z.sub_diag, Z.compare_refl. split; reflexivity.
    + pose proof (binary_normalize_nonzero (c1 - c2) ez false
                    ltac:(lia) ltac:(lia)) as Hnz.
      assert (Hz : F32.is_zero (binary_normalize F32.prec F32.emax (c1 - c2) ez false)
                   = false)
        by (destruct (binary_normalize _ _ _ _ _); [discriminate | | |]; reflexivity).
      rewrite Hnz, Hz.
      destruct (Z.compare_spec (c1 * 2 ^ (ez + 149)) (c2 * 2 ^ (ez + 149)))
        as [E | L | G]; try (split; reflexivity).
      apply Z.mul_reg_r in E; [contradiction | lia].
Qed.

Lemma ltb_abs_nonzero (v w : F32.float) :
  F32.gtb (F32.abs v) (F32.abs w) = true -> F32.nonzero_number v = true.
Proof. destruct v as [s | s | | s m e], w as [t | t | | t k d]; cbn; congruence. Qed.

Lemma gtb_abs_zero (v w : F32.float) :
  F32.nonzero_number v = true -> F32.is_zero w = true ->
  F32.gtb (F32.abs v) (F32.abs w) = true.
Proof.
  destruct v as [s | s | | s m e], w as [t | t | | t k d]; cbn; congruence.
Qed.

(** *** Division *)

(** A finite value other than zero divided by itself is [1.0]. *)
Lemma div_diag (s : bool) (m : positive) (e : Z) :
  F32.div (S754_finite s m e) (S754_finite s m e) = F32.one.
Proof.
  unfold F32.div, SFdiv, SFdiv_core_binary. cbn [Zdigits2].
  rewrite !Z.sub_diag.
  change (Z.min (fexp F32.prec F32.emax 0) 0) with (-24).
  change (0 - -24) with 24.
  change (match 24 with
          | 0 => Zpos m
          | Zpos _ => Z.shiftl (Zpos m) 24
          | Zneg _ => 0
          end) with (Z.shiftl (Zpos m) 24).
  rewrite Z.shiftl_mul_pow2 by lia.
  assert (Hq : Z.div_eucl (Zpos m * 2 ^ 24) (Zpos m) = (2 ^ 24, 0)).
  { pose proof (Z.div_mul (2 ^ 24) (Zpos m) ltac:(lia)) as Hd.
    pose proof (Z.mod_mul (2 ^ 24) (Zpos m) ltac:(lia)) as Hm.
    rewrite (Z.mul_comm (2 ^ 24)) in Hd, Hm.
    unfold Z.div, Z.modulo in Hd, Hm.
    destruct (Z.div_eucl (Zpos m * 2 ^ 24) (Zpos m)) as [q r].
    cbn [fst snd] in *. now subst. }
  rewrite Hq.
  assert (Hl : new_location (Zpos m) 0 = loc_Exact)
    by (unfold new_location; destruct (Z.even (Zpos m)); reflexivity).
  rewrite Hl. now destruct s.
Qed.

Lemma shr_fexp_nonneg (m e : Z) (l : location) :
  0 <= m -> 0 <= shr_m (fst (shr_fexp F32.prec F32.emax m e l)).
Proof.
  intros Hm. unfold shr_fexp, shr.
  destruct (fexp F32.prec F32.emax (Zdigits2 m + e) - e) as [| k | k];
    cbn [fst]; rewrite ?shr_record_of_loc_m; try assumption.
  rewrite iter_pos_shr_1_m by (rewrite shr_record_of_loc_m; assumption).
  rewrite shr_record_of_loc_m. apply Z.div_pos; lia.
Qed.

(** Rounding a mantissa that is not negative never gives a NaN. *)
Lemma binary_round_aux_not_nan (s : bool) (m e : Z) (l : location) :
  0 <= m -> F32.is_nan (binary_round_aux F32.prec F32.emax s m e l) = false.
Proof.
  intros Hm. unfold binary_round_aux.
  pose proof (shr_fexp_nonneg m e l Hm) as H1.
  destruct (shr_fexp F32.prec F32.emax m e l) as [mrs' e']. cbn [fst] in H1.
  assert (H2 : 0 <= round_nearest_even (shr_m mrs') (loc_of_shr_record mrs')).
  { destruct (loc_of_shr_record mrs') as [| []]; cbn [round_nearest_even];
      try lia. destruct (Z.even (shr_m mrs')); lia. }
  pose proof (shr_fexp_nonneg _ e' loc_Exact H2) as H3.
  destruct (shr_fexp F32.prec F32.emax _ e' loc_Exact) as [mrs'' e''].
  cbn [fst] in H3.
  destruct (shr_m mrs''); try lia; [reflexivity |]. now destruct (e'' <=? _).
Qed.

(** A quotient by a finite value other than zero is a NaN only when the
    dividend is. *)
Lemma div_not_nan (v w : F32.float) :
  F32.is_nan v = false -> F32.finite_nonzero w = true -> F32.is_nan (F32.div v w) = false.
Proof.
  intros Hv Hw. destruct w as [t | t | | t k d]; try discriminate.
  destruct v as [s | s | | s m e]; try discriminate; try reflexivity.
  unfold F32.div, SFdiv, SFdiv_core_binary.
  set (m' := match _ - _ - _ with 0 => Zpos m | Zpos _ => Z.shiftl (Zpos m) _ | Zneg _ => 0 end).
  assert (Hm' : 0 <= m').
  { unfold m'. destruct (_ - _ - _); try lia. apply Z.shiftl_nonneg. lia. }
  pose proof (Z.div_pos m' (Zpos k) Hm' ltac:(lia)) as Hq.
  unfold Z.div in Hq. destruct (Z.div_eucl m' (Zpos k)) as [q r].
  cbn [fst] in Hq. now apply binary_round_aux_not_nan.
Qed.

(** A quotient by a zero or a NaN is an infinity or a NaN. *)
Lemma div_by_zero (v w : F32.float) :
  F32.nonzero_number w = false -> F32.is_finite (F32.div v w) = false.
Proof.
  destruct w as [t | t | | t k d]; try discriminate; intros _;
    destruct v as [s | s | | s m e]; reflexivity.
Qed.

Lemma sub_not_nan (v w : F32.float) :
  F32.proper v = true -> F32.proper w = true -> F32.is_nan (F32.sub v w) = false.
Proof.
  intros Pv Pw. destruct (sub_nonzero v w Pv Pw) as [Hn Hz].
  destruct (F32.sub v w); try reflexivity.
  destruct (F32.eqb v w); discriminate.
Qed.

Lemma to_int_not_finite (v : F32.float) :
  F32.is_finite v = false -> F32.to_int v = None.
Proof. destruct v; try discriminate; reflexivity. Qed.

Lemma ceil_to_size_not_finite (v : F32.float) :
  F32.is_finite v = false -> F32.ceil_to_size v = None.
Proof. destruct v; try discriminate; reflexivity. Qed.

Lemma trunc_Qtrunc (v : F32.float) (n : Z) :
  F32.trunc v = Some n -> n = F32.Qtrunc (F32.to_Q v).
Proof.
  destruct v as [s | s | | s m e]; try discriminate.
  - now intros [= <-].
  - intros H. destruct s.
    + assert (Hneg : Qle_bool 0 (F32.to_Q (S754_finite true m e)) = false).
      { destruct (Qle_bool 0 _) eqn:E; [| reflexivity]. exfalso.
        apply Qle_bool_iff in E. revert E. unfold F32.to_Q.
        destruct e as [| k | k]; unfold Qle; cbn [Qnum Qden inject_Z cond_Zopp];
          try (pose proof (Z.pow_pos_nonneg 2 (Zpos k) ltac:(lia) ltac:(lia))); nia. }
      unfold F32.Qtrunc. rewrite Hneg.
      pose proof (ceil_Qceiling (S754_finite true m e) eq_refl) as Hc.
      cbn [F32.ceil negb cond_Zopp] in Hc. cbn [F32.trunc cond_Zopp] in H.
      congruence.
    + assert (Hpos : (0 <= F32.to_Q (S754_finite false m e))%Q)
        by (apply not_negative_to_Q; reflexivity).
      rewrite (trunc_floor (S754_finite false m e) eq_refl Hpos) in H.
      injection H as <-.
      unfold F32.Qtrunc. apply Qle_bool_iff in Hpos. now rewrite Hpos.
Qed.

(** A difference or a quotient whose first operand is an infinity or a
    NaN is an infinity or a NaN, whatever the second operand. *)
Lemma sub_not_finite (v w : F32.float) :
  F32.is_finite v = false -> F32.is_finite (F32.sub v w) = false.
Proof.
  destruct v as [s | s | | s m e]; try discriminate; intros _;
    destruct w as [t | t | | t k d]; try reflexivity; now destruct s, t.
Qed.

Lemma div_not_finite (v w : F32.float) :
  F32.is_finite v = false -> F32.is_finite (F32.div v w) = false.
Proof.
  destruct v as [s | s | | s m e]; try discriminate; intros _;
    destruct w as [t | t | | t k d]; reflexivity.
Qed.

(** Rounding toward zero leaves an integer as it is. *)
Lemma Qtrunc_Z (q : Q) (n : Z) : (q == inject_Z n)%Q -> F32.Qtrunc q = n.
Proof.
  intros H. unfold F32.Qtrunc.
  rewrite (Qfloor_comp _ _ H), (Qceiling_comp _ _ H), Qfloor_Z, Qceiling_Z.
  now destruct (Qle_bool 0 q).
Qed.

End F32Facts.

(** ** The two constructors on the grids used below *)

Lemma test_grid_is_unit_grid : test_grid = Some unit_grid.
Proof. vm_compute. reflexivity. Qed.

Lemma new_50_by_50 : new_by_counts small_bbox 50 50 = Some grid50.
Proof. vm_compute. reflexivity. Qed.

Lemma new_3_by_3 : new_by_counts test_bbox 3 3 = Some grid3.
Proof. vm_compute. reflexivity. Qed.

(** The assertions of [TestGridTools] hold in the model. *)
Example TestGridTools_GridCoordinates :
  GridCoordinates unit_grid (pt 125 10 137 10) = Some (12, 13).
Proof. vm_compute. reflexivity. Qed.

Example TestGridTools_intersections :
  CellLineSegmentIntersections Intersect unit_grid 2 3 test_segment
  = [pt 3 1 35 10].
Proof. vm_compute. reflexivity. Qed.

(** ** The bucket vector *)

Lemma length_resize (n : nat) (items : list (list GraphId)) :
  length (resize n items) = n.
Proof.
  unfold resize. rewrite length_app, length_firstn, repeat_length. lia.
Qed.

(** What [Init] stores in the two count members. *)
Lemma Init_counts (items : list (list GraphId)) (bbox : BoundingBox)
    (cell_width cell_height : F32.float) (g : GridRangeQuery) :
  Init items bbox cell_width cell_height = Some g ->
  num_rows_ g = Qceiling (F32.to_Q (F32.div (Width bbox) cell_width)) /\
  num_cols_ g = Qceiling (F32.to_Q (F32.div (Height bbox) cell_height)) /\
  length (items_ g) = Z.to_nat (wrap_size (num_cols_ g * num_rows_ g)).
Proof.
  unfold Init.
  destruct (F32.ceil_to_size (F32.div (Width bbox) cell_width)) as [rows |] eqn:Er;
    [| discriminate].
  destruct (F32.ceil_to_size (F32.div (Height bbox) cell_height)) as [cols |] eqn:Ec;
    [| discriminate].
  intros [= <-]. cbn [num_rows_ num_cols_ items_].
  destruct (F32Facts.ceil_to_size_Qceiling _ _ Er) as [-> _].
  destruct (F32Facts.ceil_to_size_Qceiling _ _ Ec) as [-> _].
  now rewrite length_resize.
Qed.

Lemma push_back_at_in_range (items : list (list GraphId)) (index : nat)
    (edgeid : GraphId) :
  (index < length items)%nat <-> push_back_at items index edgeid <> None.
Proof.
  revert index. induction items as [| bucket rest IH]; intros index; cbn.
  - split; [lia | congruence].
  - destruct index as [| n]; [split; [discriminate | lia] |].
    specialize (IH n). destruct (push_back_at rest n edgeid).
    + split; [discriminate | intros _; apply -> Nat.succ_lt_mono; now apply IH].
    + split; [intros H; apply Nat.succ_lt_mono in H; now apply IH | congruence].
Qed.

(** With a column below [num_rows_] and a row below [num_cols_], the index
    [column + row * num_rows_] is below [num_cols_ * num_rows_]: the
    members are named the other way round, but the stride matches the
    range of the column. *)
Lemma bucket_index_in_range (g : GridRangeQuery) (column row : Z) :
  0 <= column < num_rows_ g -> 0 <= row < num_cols_ g ->
  num_cols_ g * num_rows_ g < size_max ->
  bucket_index g (column, row) = column + row * num_rows_ g /\
  0 <= bucket_index g (column, row) < num_cols_ g * num_rows_ g.
Proof.
  intros Hc Hr Hmax. unfold bucket_index, wrap_size; cbn [fst snd].
  assert (0 <= column + row * num_rows_ g < num_cols_ g * num_rows_ g) by nia.
  rewrite Z.mod_small by lia. split; [reflexivity | assumption].
Qed.

(** ** The loop of [AddLineSegment] *)

(** The loop body leaves [current_point] as it is. *)
Lemma loop_body_current_point (edgeid : GraphId) (st st' : loop_state) :
  loop_body edgeid st = Some st' -> snd st' = snd st.
Proof.
  destruct st as [g current_point]. unfold loop_body.
  destruct (GridCoordinates g current_point) as [cell |]; [| discriminate].
  destruct (push_back_at _ _ _); [| discriminate].
  now intros [= <-].
Qed.

(** Hence the guard, which reads [current_point] only, is the same after
    an iteration as before it. *)
Lemma loop_guard_invariant (edgeid : GraphId) (start end_ : Point) (st st' : loop_state) :
  loop_body edgeid st = Some st' ->
  loop_guard start end_ st' = loop_guard start end_ st.
Proof.
  intros H. unfold loop_guard. now rewrite (loop_body_current_point _ _ _ H).
Qed.

(** A loop entered once is never left by the guard: within any number of
    iterations it is still running, or has hit undefined behaviour. *)
Lemma loop_never_returns (edgeid : GraphId) (start end_ : Point) (fuel : nat) :
  forall st, loop_guard start end_ st = true ->
  forall g', loop fuel edgeid start end_ st <> Returned g'.
Proof.
  induction fuel as [| fuel IH]; intros st Hguard g'; cbn; rewrite Hguard.
  - discriminate.
  - destruct (loop_body edgeid st) as [st' |] eqn:Hbody; [| discriminate].
    apply IH. now rewrite (loop_guard_invariant _ _ _ _ _ Hbody).
Qed.

(** A loop whose guard fails at entry returns at once, whatever the fuel. *)
Lemma loop_exits_at_entry (edgeid : GraphId) (start end_ : Point) (fuel : nat)
    (st : loop_state) :
  loop_guard start end_ st = false ->
  loop fuel edgeid start end_ st = Returned (fst st).
Proof. intros H. destruct fuel; cbn; now rewrite H. Qed.

(** [Unlerp] of a zero-length segment divides [0] by [0] (or a NaN by a
    NaN): the result is a NaN. *)
Lemma Unlerp_zero_length (p : Point) : Unlerp p p p = F32.nan.
Proof.
  unfold Unlerp.
  destruct (F32Facts.sub_diag (x p)) as [-> | ->];
    destruct (F32Facts.sub_diag (y p)) as [-> | ->]; reflexivity.
Qed.

(** At the first test of the guard [current_point] is [start]: [Unlerp] is
    [0 / d], a zero, so below [1.0], unless the chosen delta [d] is itself
    a zero or a NaN.  The loop of every such segment is entered. *)
Lemma loop_guard_at_start (g : GridRangeQuery) (start end_ : Point) :
  F32.is_finite (x start) = true ->
  F32.is_finite (y start) = true ->
  (let d := if F32.gtb (F32.abs (F32.sub (x end_) (x start)))
                       (F32.abs (F32.sub (y end_) (y start)))
            then F32.sub (x end_) (x start) else F32.sub (y end_) (y start) in
   match d with S754_zero _ | S754_nan => False | _ => True end) ->
  loop_guard start end_ (g, start) = true.
Proof.
  intros Hx Hy Hd. unfold loop_guard, Unlerp; cbn [snd].
  rewrite (F32Facts.sub_diag_finite _ Hx), (F32Facts.sub_diag_finite _ Hy).
  cbv zeta in Hd.
  destruct (F32.gtb _ _);
    [destruct (F32.sub (x end_) (x start)) as [s | s | | s m e]
    |destruct (F32.sub (y end_) (y start)) as [s | s | | s m e]];
    try contradiction; now destruct s.
Qed.

(** A segment whose endpoints are two different binary32 points enters
    the loop of [AddLineSegment]. *)
Lemma loop_entered (g : GridRangeQuery) (start end_ : Point) :
  F32.proper (x start) = true -> F32.proper (y start) = true ->
  F32.proper (x end_) = true -> F32.proper (y end_) = true ->
  F32.eqb (x end_) (x start) && F32.eqb (y end_) (y start) = false ->
  loop_guard start end_ (g, start) = true.
Proof.
  intros Pxs Pys Pxe Pye Hne.
  destruct (F32Facts.proper_inv _ Pxs) as [_ Fxs], (F32Facts.proper_inv _ Pys) as [_ Fys].
  destruct (F32Facts.sub_nonzero _ _ Pxe Pxs) as [Nx Zx].
  destruct (F32Facts.sub_nonzero _ _ Pye Pys) as [Ny Zy].
  apply loop_guard_at_start; try assumption. cbv zeta.
  assert (Hshape : forall d, F32.nonzero_number d = true ->
                     match d with S754_zero _ | S754_nan => False | _ => True end)
    by (intros [s | s | | s m e]; cbn; congruence || trivial).
  destruct (F32.gtb _ _) eqn:Hgt; apply Hshape.
  - exact (F32Facts.ltb_abs_nonzero _ _ Hgt).
  - destruct (F32.eqb (y end_) (y start)) eqn:Ey; [| exact Ny].
    rewrite andb_true_r in Hne. rewrite Hne in Nx.
    rewrite (F32Facts.gtb_abs_zero _ _ Nx Zy) in Hgt. discriminate.
Qed.

(** A segment whose endpoints are the same binary32 point does not enter
    the loop: both deltas are zeros and [Unlerp] is [0 / 0]. *)
Lemma loop_not_entered (g : GridRangeQuery) (start end_ : Point) :
  binary32_point start = true -> binary32_point end_ = true ->
  same_point start end_ = true ->
  loop_guard start end_ (g, start) = false.
Proof.
  unfold binary32_point, same_point. intros Ps Pe Hsame.
  apply andb_true_iff in Ps, Pe, Hsame.
  destruct Ps as [Pxs Pys], Pe as [Pxe Pye], Hsame as [Ex Ey].
  destruct (F32Facts.proper_inv _ Pys) as [_ Fys].
  destruct (F32Facts.sub_nonzero _ _ Pxe Pxs) as [_ Zx].
  destruct (F32Facts.sub_nonzero _ _ Pye Pys) as [_ Zy].
  rewrite Ex in Zx. rewrite Ey in Zy.
  unfold loop_guard, Unlerp; cbn [snd].
  rewrite (F32Facts.sub_diag_finite _ Fys).
  destruct (F32.sub (x end_) (x start)); try discriminate.
  destruct (F32.sub (y end_) (y start)); try discriminate.
  reflexivity.
Qed.

(** Together: a call on a segment inside the region returns exactly when
    the segment has zero length. *)
Lemma AddLineSegment_returns_iff_zero_length (g : GridRangeQuery)
    (edgeid : GraphId) (segment : LineSegment) :
  binary32_point (a segment) = true -> binary32_point (b segment) = true ->
  Contains (bbox_ g) (a segment) && Contains (bbox_ g) (b segment) = true ->
  (exists fuel g', AddLineSegment fuel g edgeid segment = Returned g') <->
  same_point (a segment) (b segment) = true.
Proof.
  intros Pa Pb Hassert. split.
  - intros (fuel & g' & Hret).
    destruct (same_point (a segment) (b segment)) eqn:Hsame; [reflexivity |].
    exfalso. revert Hret. unfold AddLineSegment. rewrite Hassert.
    apply loop_never_returns.
    unfold binary32_point, same_point in *. apply andb_true_iff in Pa, Pb.
    destruct Pa, Pb. now apply loop_entered.
  - intros Hsame. exists O, g. unfold AddLineSegment. rewrite Hassert.
    apply (loop_exits_at_entry edgeid _ _ O (g, a segment)).
    now apply loop_not_entered.
Qed.

(** ** Cell of a point, box of a cell *)

(** Along one axis: for a coordinate not below the lower bound of the
    region and a positive cell size, the quotient of [GridCoordinates] is
    no finite value below zero. *)
Lemma axis_quotient_not_negative (coord lo size : F32.float) :
  F32.proper coord = true -> F32.proper lo = true ->
  F32.geb coord lo = true -> F32.ltb F32.zero size = true ->
  F32.negative (F32.div (F32.sub coord lo) size) = false.
Proof.
  intros Hc Hl Hge Hsize.
  destruct (F32Facts.proper_inv _ Hc) as [Vc Fc].
  destruct (F32Facts.proper_inv _ Hl) as [Vl Fl].
  apply F32Facts.div_not_negative; [| exact Hsize].
  now apply F32Facts.sub_not_negative.
Qed.

(** Along one axis: the [int] conversion of a finite quotient that is not
    below zero is its floor. *)
Lemma axis_cell_is_floor (q : F32.float) :
  F32.negative q = false -> F32.is_finite q = true ->
  Qfloor (F32.to_Q q) < 2 ^ 31 ->
  F32.to_int q = Some (Qfloor (F32.to_Q q)).
Proof.
  intros Hneg Hfin Hmax.
  pose proof (F32Facts.not_negative_to_Q q Hneg) as Hq.
  apply F32Facts.trunc_to_int; [now apply F32Facts.trunc_floor |].
  split; [| exact Hmax].
  apply Z.le_trans with 0; [lia |].
  change 0 with (Qfloor 0). now apply Qfloor_resp_le.
Qed.

(** Along one axis: when the quotient and the two bounds are exact, the
    bounds of the cell enclose the coordinate. *)
Lemma axis_round_trip (coord lo size : F32.float) (i : Z) :
  exact_on_axis coord lo size i = true ->
  F32.geb coord lo = true ->
  F32.ltb F32.zero size = true ->
  F32.to_int (F32.div (F32.sub coord lo) size) = Some i ->
  F32.geb coord (F32.add lo (F32.mul (F32.of_Z i) size)) = true /\
  F32.leb coord (F32.add lo (F32.mul (F32.of_Z (i + 1)) size)) = true /\
  F32.ltb coord (F32.add lo (F32.mul (F32.of_Z (i + 1)) size)) = true.
Proof.
  unfold exact_on_axis. cbv zeta.
  set (q := F32.div (F32.sub coord lo) size).
  set (b0 := F32.add lo (F32.mul (F32.of_Z i) size)).
  set (b1 := F32.add lo (F32.mul (F32.of_Z (i + 1)) size)).
  rewrite !andb_true_iff. cbn [forallb]. rewrite !andb_true_iff.
  intros (((((Pc & Pl & Ps & P0 & P1 & _) & Fq) & Eq_) & E0) & E1).
  destruct (F32Facts.proper_inv _ Pc) as [Vc Fc].
  destruct (F32Facts.proper_inv _ Pl) as [Vl Fl].
  destruct (F32Facts.proper_inv _ Ps) as [Vs Fs].
  destruct (F32Facts.proper_inv _ P0) as [V0 F0].
  destruct (F32Facts.proper_inv _ P1) as [V1 F1].
  apply Qeq_bool_iff in Eq_, E0, E1.
  intros Hge Hsize Hint. apply F32Facts.to_int_trunc in Hint.
  unfold F32.geb in *.
  apply (F32Facts.leb_to_Q lo coord Vl Vc Fl Fc) in Hge.
  apply (F32Facts.ltb_to_Q F32.zero size eq_refl Vs eq_refl Fs) in Hsize.
  change (F32.to_Q F32.zero) with 0%Q in Hsize.
  assert (Hq : (0 <= F32.to_Q q)%Q).
  { destruct (Qlt_le_dec (F32.to_Q q) 0) as [Hneg | Hok]; [exfalso | exact Hok].
    assert (F32.to_Q q * F32.to_Q size < 0)%Q by nra. lra. }
  rewrite (F32Facts.trunc_floor q Fq Hq) in Hint. injection Hint as Hi.
  pose proof (Qfloor_le (F32.to_Q q)) as Hlo.
  pose proof (Qlt_floor (F32.to_Q q)) as Hhi.
  rewrite Hi in Hlo, Hhi.
  split; [| split].
  - apply (F32Facts.leb_to_Q b0 coord V0 Vc F0 Fc). rewrite E0. nra.
  - apply (F32Facts.leb_to_Q coord b1 Vc V1 Fc F1). rewrite E1. nra.
  - apply (F32Facts.ltb_to_Q coord b1 Vc V1 Fc F1). rewrite E1. nra.
Qed.

Lemma Contains_inv (bb : BoundingBox) (p : Point) :
  Contains bb p = true ->
  F32.geb (x p) (minx bb) = true /\ F32.geb (y p) (miny bb) = true /\
  F32.leb (x p) (maxx bb) = true /\ F32.leb (y p) (maxy bb) = true.
Proof. unfold Contains. rewrite !andb_true_iff. tauto. Qed.

Lemma GridCoordinates_inv (g : GridRangeQuery) (p : Point) (c r : Z) :
  GridCoordinates g p = Some (c, r) ->
  F32.to_int (F32.div (F32.sub (x p) (minx (bbox_ g))) (cell_width_ g)) = Some c /\
  F32.to_int (F32.div (F32.sub (y p) (miny (bbox_ g))) (cell_height_ g)) = Some r.
Proof.
  unfold GridCoordinates.
  destruct (F32.to_int _) as [c' |]; [| discriminate].
  destruct (F32.to_int _) as [r' |]; [| discriminate].
  now intros [= -> ->].
Qed.

Lemma loop_undefined (edgeid : GraphId) (start end_ : Point) (fuel : nat)
    (st : loop_state) :
  loop_guard start end_ st = true -> loop_body edgeid st = None ->
  loop (S fuel) edgeid start end_ st = Undefined (fst st).
Proof. intros Hg Hb. cbn [loop]. now rewrite Hg, Hb. Qed.

(** ** Claims *)

(** An entered loop never returns, and no iteration increases the
    parametric position. *)
Lemma entered_loop_never_returns (g : GridRangeQuery) (edgeid : GraphId)
    (segment : LineSegment) :
  Contains (bbox_ g) (a segment) && Contains (bbox_ g) (b segment) = true ->
  loop_guard (a segment) (b segment) (g, a segment) = true ->
  (forall fuel g', AddLineSegment fuel g edgeid segment <> Returned g') /\
  (forall st st', loop_body edgeid st = Some st' ->
     F32.ltb (Unlerp (a segment) (b segment) (snd st))
             (Unlerp (a segment) (b segment) (snd st')) = false).
Proof.
  intros Hassert Hguard. split.
  - intros fuel g'. unfold AddLineSegment. rewrite Hassert.
    now apply loop_never_returns.
  - intros st st' Hbody. rewrite (loop_body_current_point _ _ _ Hbody).
    apply F32Facts.ltb_irrefl.
Qed.

(** C1 (the code departs from the claim).  The claim asks that insertion
    terminate, each iteration strictly increasing the parametric position
    [t].  In the code, for every segment inside the region whose endpoints
    are two different binary32 points, [AddLineSegment] never returns,
    however many iterations it is given, and no iteration increases [t]:
    the body never moves [current_point]. *)
Theorem AddLineSegment_never_returns (g : GridRangeQuery) (edgeid : GraphId)
    (segment : LineSegment) :
  binary32_point (a segment) = true -> binary32_point (b segment) = true ->
  Contains (bbox_ g) (a segment) && Contains (bbox_ g) (b segment) = true ->
  same_point (a segment) (b segment) = false ->
  (forall fuel g', AddLineSegment fuel g edgeid segment <> Returned g') /\
  (forall st st', loop_body edgeid st = Some st' ->
     F32.ltb (Unlerp (a segment) (b segment) (snd st))
             (Unlerp (a segment) (b segment) (snd st')) = false).
Proof.
  unfold binary32_point, same_point.
  intros Pa Pb Hassert Hne.
  apply andb_true_iff in Pa, Pb. destruct Pa as [Pxa Pya], Pb as [Pxb Pyb].
  apply entered_loop_never_returns; [exact Hassert |].
  now apply loop_entered.
Qed.

Lemma AddLineSegment_never_returns_witness :
  (forall fuel g', AddLineSegment fuel unit_grid 7 grid_line_segment <> Returned g') /\
  (forall st st', loop_body 7 st = Some st' ->
     F32.ltb (Unlerp (a grid_line_segment) (b grid_line_segment) (snd st))
             (Unlerp (a grid_line_segment) (b grid_line_segment) (snd st')) = false).
Proof.
  apply (AddLineSegment_never_returns unit_grid 7 grid_line_segment);
    vm_compute; reflexivity.
Defined.

(** After [columnCount + rowCount = 200] iterations the insertion of the
    grid-line segment is still in its loop, with 200 copies of the
    identifier in the bucket of cell (2, 3). *)
Example grid_line_segment_after_200_iterations :
  exists g', AddLineSegment 200 unit_grid 7 grid_line_segment = StillRunning g' /\
             nth 302 (items_ g') [] = repeat 7 200.
Proof. eexists. split; vm_compute; reflexivity. Qed.

(** C2 (the code departs from the claim).  The claim asks that a query on
    the box of a cell the inserted segment passes through return the
    identifier.  The zero-length segment at (5.5, 5.5), in cell (5, 5), is
    inserted with identifier 9 and the call returns; the query on the box
    of cell (5, 5) does not contain 9.  More generally no query after a
    returning insertion contains the inserted identifier. *)
Theorem Query_misses_inserted_segment :
  GridCoordinates unit_grid (a point_segment) = Some (5, 5) /\
  (exists g', AddLineSegment 0 unit_grid 9 point_segment = Returned g' /\
              ~ In 9 (Query g' (CellBoundingBox g' 5 5))) /\
  (forall fuel g k segment g' i j,
      AddLineSegment fuel g k segment = Returned g' ->
      ~ In k (Query g' (CellBoundingBox g' i j))).
Proof.
  split; [vm_compute; reflexivity |]. split.
  - exists unit_grid. split; [vm_compute; reflexivity | intros []].
  - intros fuel g k segment g' i j _ [].
Qed.

(** C3.  [Query] returns the empty collection, for every query box and
    whatever the grid holds: in particular in the state any sequence of
    [AddLineSegment] calls leaves behind, whether the calls returned or
    not, and no identifier is ever in the result. *)
Theorem Query_returns_empty (g : GridRangeQuery) (range : BoundingBox)
    (fuel : nat) (calls : list (GraphId * LineSegment)) :
  Query g range = [] /\
  Query (grid_of (AddLineSegments fuel g calls)) range = [] /\
  forall edgeid, ~ In edgeid (Query (grid_of (AddLineSegments fuel g calls)) range).
Proof.
  split; [reflexivity |]. split; [reflexivity |].
  intros edgeid H. destruct H.
Qed.

(** C4, as amended.  When an endpoint fails the containment test (with no
    tolerance), [AddLineSegment] fails its assertion: the process aborts
    with every bucket as it was; no error value is returned. *)
Theorem AddLineSegment_outside_aborts (fuel : nat) (g : GridRangeQuery)
    (edgeid : GraphId) (segment : LineSegment) :
  Contains (bbox_ g) (a segment) && Contains (bbox_ g) (b segment) = false ->
  AddLineSegment fuel g edgeid segment = AssertionFailed g.
Proof. intros H. unfold AddLineSegment. now rewrite H. Qed.

Lemma AddLineSegment_outside_aborts_witness :
  AddLineSegment 1 unit_grid 7 outside_segment = AssertionFailed unit_grid.
Proof.
  apply (AddLineSegment_outside_aborts 1 unit_grid 7 outside_segment).
  vm_compute. reflexivity.
Defined.

(** C4 as stated fails: for the segment (150, 50) - (10, 10) on the test
    grid the call does not return, with an error or otherwise. *)
Lemma AddLineSegment_outside_does_not_return :
  Contains (bbox_ unit_grid) (a outside_segment) = false /\
  forall fuel, ~ exists g', AddLineSegment fuel unit_grid 7 outside_segment = Returned g'.
Proof.
  split; [vm_compute; reflexivity |].
  intros fuel [g' H]. unfold AddLineSegment in H.
  replace (Contains (bbox_ unit_grid) (a outside_segment)) with false in H
    by (vm_compute; reflexivity).
  discriminate H.
Qed.

(** C5 (the code departs from the claim).  The claim asks that a
    zero-length segment be recorded in the one bucket of its cell.  In the
    code, for a zero-length segment inside the region, [Unlerp] is a NaN,
    the guard fails at entry and the call returns at once with the grid as
    it was: the identifier is recorded in no bucket. *)
Theorem AddLineSegment_zero_length_records_nothing (fuel : nat)
    (g : GridRangeQuery) (edgeid : GraphId) (p : Point) :
  Contains (bbox_ g) p = true ->
  AddLineSegment fuel g edgeid (mkSegment p p) = Returned g.
Proof.
  intros H. unfold AddLineSegment; cbn [a b]. rewrite H; cbn [andb].
  apply (loop_exits_at_entry edgeid p p fuel (g, p)).
  unfold loop_guard; cbn [snd]. now rewrite Unlerp_zero_length.
Qed.

Lemma AddLineSegment_zero_length_records_nothing_witness :
  AddLineSegment 0 unit_grid 9 (mkSegment (pt 55 10 55 10) (pt 55 10 55 10))
  = Returned unit_grid.
Proof.
  apply (AddLineSegment_zero_length_records_nothing 0 unit_grid 9 (pt 55 10 55 10)).
  vm_compute. reflexivity.
Defined.

(** The floor formula, in binary32: for a point of the region (binary32
    coordinates, positive cell sizes), [GridCoordinates] returns
    the floors of the two binary32 quotients [(p.x - minx) / cell_width]
    and [(p.y - miny) / cell_height], provided they are finite and below
    [2^31]. *)
Lemma GridCoordinates_floor (g : GridRangeQuery) (p : Point) :
  F32.proper (x p) = true -> F32.proper (y p) = true ->
  F32.proper (minx (bbox_ g)) = true -> F32.proper (miny (bbox_ g)) = true ->
  F32.ltb F32.zero (cell_width_ g) = true ->
  F32.ltb F32.zero (cell_height_ g) = true ->
  Contains (bbox_ g) p = true ->
  let qx := F32.div (F32.sub (x p) (minx (bbox_ g))) (cell_width_ g) in
  let qy := F32.div (F32.sub (y p) (miny (bbox_ g))) (cell_height_ g) in
  F32.is_finite qx = true -> F32.is_finite qy = true ->
  Qfloor (F32.to_Q qx) < 2 ^ 31 -> Qfloor (F32.to_Q qy) < 2 ^ 31 ->
  GridCoordinates g p = Some (Qfloor (F32.to_Q qx), Qfloor (F32.to_Q qy)).
Proof.
  intros Px Py Pminx Pminy Hw Hh Hin qx qy Fx Fy Mx My.
  destruct (Contains_inv _ _ Hin) as (Gx & Gy & _).
  unfold GridCoordinates. fold qx qy.
  rewrite (axis_cell_is_floor qx), (axis_cell_is_floor qy); try assumption.
  - reflexivity.
  - now apply axis_quotient_not_negative.
  - now apply axis_quotient_not_negative.
Qed.

(** What [Init] leaves in the members. *)
Lemma Init_inv (items : list (list GraphId)) (bb : BoundingBox)
    (cell_width cell_height : F32.float) (g : GridRangeQuery) :
  Init items bb cell_width cell_height = Some g ->
  bbox_ g = bb /\ cell_width_ g = cell_width /\ cell_height_ g = cell_height /\
  F32.ceil_to_size (F32.div (Width bb) cell_width) = Some (num_rows_ g) /\
  F32.ceil_to_size (F32.div (Height bb) cell_height) = Some (num_cols_ g).
Proof.
  unfold Init.
  destruct (F32.ceil_to_size (F32.div (Width bb) cell_width)) as [rows |];
    [| discriminate].
  destruct (F32.ceil_to_size (F32.div (Height bb) cell_height)) as [cols |];
    [| discriminate].
  intros [= <-]. cbn. auto.
Qed.

(** Along one axis, on the upper bound of the region: [Init] takes the
    ceiling of the quotient [extent / cell size] as the number of cells
    and [GridCoordinates] takes its truncation as the cell.  When the
    quotient is an integer [n], both are [n]. *)
Lemma axis_upper_bound (q : F32.float) (count cell n : Z) :
  F32.ceil_to_size q = Some count -> F32.to_int q = Some cell ->
  (F32.to_Q q == inject_Z n)%Q ->
  count = n /\ cell = n.
Proof.
  intros Hceil Hint Hq.
  destruct (F32Facts.ceil_to_size_Qceiling _ _ Hceil) as [-> _].
  apply F32Facts.to_int_trunc, F32Facts.trunc_Qtrunc in Hint. subst cell.
  rewrite (F32Facts.Qtrunc_Z _ _ Hq), (Qceiling_comp _ _ Hq), Qceiling_Z. auto.
Qed.

(** C6 (the code departs from the claim).  The claim asks that a point on
    an upper bound of the region be mapped to the last valid column or
    row.  [GridCoordinates] has no clamp.  On the test grid of 100 x 100
    unit cells, the upper corner (100, 100) of the region is mapped to
    cell (100, 100): the columns and rows are 0 .. 99, and the index 10100
    of that cell is not in the vector of 10000 buckets, so that the
    insertion of a segment from that corner, which passes the assertion,
    accesses [items_] out of range.  It is so on every grid [Init] builds
    whose cell width divides the width of the region evenly (the binary32
    quotient is an integer [n], the number of columns): a point on the
    upper [x] bound gets column [n], not [n - 1]; likewise for the rows. *)
Theorem GridCoordinates_upper_bound_not_clamped :
  new_by_counts test_bbox 100 100 = Some unit_grid /\
  Contains (bbox_ unit_grid) (pt 100 1 100 1) = true /\
  GridCoordinates unit_grid (pt 100 1 100 1) = Some (100, 100) /\
  columnCount unit_grid = 100 /\ rowCount unit_grid = 100 /\
  bucket_index unit_grid (100, 100) = 10100 /\
  Z.of_nat (length (items_ unit_grid)) = 10000 /\
  (forall fuel,
      AddLineSegment (S fuel) unit_grid 7 upper_corner_segment
      = Undefined unit_grid) /\
  (forall items bb cell_width cell_height g p column row n,
      Init items bb cell_width cell_height = Some g ->
      GridCoordinates g p = Some (column, row) ->
      x p = maxx bb ->
      (F32.to_Q (F32.div (Width bb) cell_width) == inject_Z n)%Q ->
      columnCount g = n /\ column = n) /\
  (forall items bb cell_width cell_height g p column row n,
      Init items bb cell_width cell_height = Some g ->
      GridCoordinates g p = Some (column, row) ->
      y p = maxy bb ->
      (F32.to_Q (F32.div (Height bb) cell_height) == inject_Z n)%Q ->
      rowCount g = n /\ row = n).
Proof.
  do 7 (split; [vm_compute; reflexivity |]).
  split.
  { intros fuel. unfold AddLineSegment.
    replace (Contains (bbox_ unit_grid) (a upper_corner_segment) &&
             Contains (bbox_ unit_grid) (b upper_corner_segment)) with true
      by (vm_compute; reflexivity).
    apply (loop_undefined 7 (a upper_corner_segment) (b upper_corner_segment) fuel
             (unit_grid, a upper_corner_segment)); vm_compute; reflexivity. }
  split; intros items bb cw ch g p column row n Hinit Hcell Hp Hq;
    destruct (Init_inv _ _ _ _ _ Hinit) as (Hbb & Hcw & Hch & Hrows & Hcols);
    destruct (GridCoordinates_inv _ _ _ _ Hcell) as [Hc Hr];
    rewrite Hbb, ?Hcw, ?Hch, Hp in *.
  - exact (axis_upper_bound _ _ _ _ Hrows Hc Hq).
  - exact (axis_upper_bound _ _ _ _ Hcols Hr Hq).
Qed.



(** The two constructors on the region [0, 200] x [0, 100], "divided into
    200 by 100 cells": 200 columns, 100 rows, 20000 buckets. *)
Example wide_grid_counts :
  new_by_cell_size wide_bbox F32.one F32.one = Some wide_grid /\
  new_by_counts wide_bbox 200 100 = Some wide_grid /\
  columnCount wide_grid = 200 /\ rowCount wide_grid = 100 /\
  Z.of_nat (length (items_ wide_grid)) = 20000.
Proof. repeat split; vm_compute; reflexivity. Qed.

(** Where the quotient of [GridCoordinates] and the bounds of
    [CellBoundingBox] are computed without rounding error on both axes,
    as on the grid of unit cells, the box of the cell of a point of the
    region contains the point (and the point is strictly below the upper
    bounds of the box). *)
Lemma CellBoundingBox_contains_point_when_exact (g : GridRangeQuery)
    (p : Point) (c r : Z) :
  GridCoordinates g p = Some (c, r) ->
  Contains (bbox_ g) p = true ->
  F32.ltb F32.zero (cell_width_ g) = true ->
  F32.ltb F32.zero (cell_height_ g) = true ->
  exact_on_axis (x p) (minx (bbox_ g)) (cell_width_ g) c = true ->
  exact_on_axis (y p) (miny (bbox_ g)) (cell_height_ g) r = true ->
  Contains (CellBoundingBox g c r) p = true /\
  F32.ltb (x p) (maxx (CellBoundingBox g c r)) = true /\
  F32.ltb (y p) (maxy (CellBoundingBox g c r)) = true.
Proof.
  intros Hcell Hin Hw Hh Ex Ey.
  destruct (GridCoordinates_inv _ _ _ _ Hcell) as [Hc Hr].
  destruct (Contains_inv _ _ Hin) as (Gx & Gy & _).
  destruct (axis_round_trip _ _ _ _ Ex Gx Hw Hc) as (X0 & X1 & X2).
  destruct (axis_round_trip _ _ _ _ Ey Gy Hh Hr) as (Y0 & Y1 & Y2).
  unfold Contains, CellBoundingBox; cbn [minx miny maxx maxy].
  now rewrite X0, X1, X2, Y0, Y1, Y2.
Qed.

Example CellBoundingBox_contains_point_of_TestGridTools :
  Contains (CellBoundingBox unit_grid 12 13) (pt 125 10 137 10) = true /\
  F32.ltb (x (pt 125 10 137 10)) (maxx (CellBoundingBox unit_grid 12 13)) = true /\
  F32.ltb (y (pt 125 10 137 10)) (maxy (CellBoundingBox unit_grid 12 13)) = true.
Proof.
  apply (CellBoundingBox_contains_point_when_exact unit_grid (pt 125 10 137 10) 12 13);
    vm_compute; reflexivity.
Qed.

(** C8 (the code departs from the claim).  The claim asks that the box of
    the cell of a point of the region contain the point.  On the grid of
    50 x 50 cells of side [0.2f] over [0, 10] x [0, 10], the point
    (1.8, 1.8) lies strictly inside the region.  [1.8f] is below
    [9 * 0.2f], but the binary32 quotient [1.8f / 0.2f] rounds up to 9:
    [GridCoordinates] gives cell (9, 9), whose box starts at the binary32
    product [9 * 0.2f], the next [float] above [1.8f].  The box of the
    cell of the point does not contain the point; the box of cell (8, 8)
    does. *)
Theorem CellBoundingBox_misses_point :
  new_by_counts small_bbox 50 50 = Some grid50 /\
  strictly_inside (bbox_ grid50) (pt 18 10 18 10) = true /\
  Contains (bbox_ grid50) (pt 18 10 18 10) = true /\
  (F32.to_Q (x (pt 18 10 18 10)) < 9 * F32.to_Q (cell_width_ grid50))%Q /\
  F32.div (F32.sub (x (pt 18 10 18 10)) (minx (bbox_ grid50))) (cell_width_ grid50)
  = F32.of_Z 9 /\
  GridCoordinates grid50 (pt 18 10 18 10) = Some (9, 9) /\
  Contains (CellBoundingBox grid50 9 9) (pt 18 10 18 10) = false /\
  F32.ltb (x (pt 18 10 18 10)) (minx (CellBoundingBox grid50 9 9)) = true /\
  Contains (CellBoundingBox grid50 8 8) (pt 18 10 18 10) = true.
Proof. repeat split; vm_compute; reflexivity. Qed.

(** Whatever the intersection test, the result of
    [CellLineSegmentIntersections] is the list of the successful
    intersection points of the segment with the bottom, right, top and
    left edge of the cell, in this order; it has at most 4 entries. *)
Lemma CellLineSegmentIntersections_edges
    (intersect_test : LineSegment -> LineSegment -> option Point)
    (g : GridRangeQuery) (i j : Z) (segment : LineSegment) :
  CellLineSegmentIntersections intersect_test g i j segment
  = flat_map (fun e => match intersect_test segment e with
                       | Some p => [p]
                       | None => []
                       end)
             (cell_edges (CellBoundingBox g i j)) /\
  (length (CellLineSegmentIntersections intersect_test g i j segment) <= 4)%nat.
Proof.
  unfold CellLineSegmentIntersections, push_if_intersect, cell_edges.
  cbv zeta. cbn [flat_map].
  repeat match goal with
         | |- context [intersect_test segment ?e] =>
             destruct (intersect_test segment e)
         end; cbn; split; try reflexivity; lia.
Qed.

(** How many points a segment through a corner of the cell yields is
    decided by the intersection test, which is not part of the source.
    Both tests of [Geometry] reproduce the assertion of
    [TestGridTools].  On the diagonal (2, 3) - (3, 4) of cell (2, 3) of the
    test grid, collinear with no edge, the test that takes an edge with
    both end points gives 4 points and the one that takes it without its
    second end point gives 2; on the segment (0, 1.5) - (4.8, 5.1), through
    the corner (2, 3), they give 3 and 2. *)
Example corner_crossings_depend_on_the_intersection_test :
  CellLineSegmentIntersections Intersect unit_grid 2 3 test_segment = [pt 3 1 35 10] /\
  CellLineSegmentIntersections Intersect_half_open unit_grid 2 3 test_segment
  = [pt 3 1 35 10] /\
  CellLineSegmentIntersections Intersect unit_grid 2 3 diagonal_segment
  = [pt 2 1 3 1; pt 3 1 4 1; pt 3 1 4 1; pt 2 1 3 1] /\
  CellLineSegmentIntersections Intersect_half_open unit_grid 2 3 diagonal_segment
  = [pt 2 1 3 1; pt 3 1 4 1] /\
  length (CellLineSegmentIntersections Intersect unit_grid 2 3 corner_segment) = 3%nat /\
  length (CellLineSegmentIntersections Intersect_half_open unit_grid 2 3 corner_segment)
  = 2%nat.
Proof. repeat split; vm_compute; reflexivity. Qed.

(** C10 (the code departs from the claim).  The claim asks that every
    bucket access be in range for endpoints strictly inside the region.
    On the grid of 3 x 3 cells over [0, 100] x [0, 100] the segment
    (99.99999, 90) - (99.99999, 95) has both endpoints strictly inside the
    region; the binary32 quotient [99.99999f / (100.0f / 3)] rounds to 3,
    the cell of the first endpoint is (3, 2), and the first iteration
    accesses [items_[9]] of a vector of 9 buckets. *)
Theorem AddLineSegment_index_out_of_range :
  new_by_counts test_bbox 3 3 = Some grid3 /\
  strictly_inside (bbox_ grid3) (a edge_segment) = true /\
  strictly_inside (bbox_ grid3) (b edge_segment) = true /\
  GridCoordinates grid3 (a edge_segment) = Some (3, 2) /\
  bucket_index grid3 (3, 2) = 9 /\
  Z.of_nat (length (items_ grid3)) = 9 /\
  (forall fuel, AddLineSegment (S fuel) grid3 7 edge_segment = Undefined grid3).
Proof.
  assert (Hrun : forall fuel,
             AddLineSegment (S fuel) grid3 7 edge_segment = Undefined grid3).
  { intros fuel. unfold AddLineSegment.
    replace (Contains (bbox_ grid3) (a edge_segment) &&
             Contains (bbox_ grid3) (b edge_segment)) with true
      by (vm_compute; reflexivity).
    apply (loop_undefined 7 (a edge_segment) (b edge_segment) fuel
             (grid3, a edge_segment)); vm_compute; reflexivity. }
  refine (conj _ (conj _ (conj _ (conj _ (conj _ (conj _ Hrun))))));
    vm_compute; reflexivity.
Qed.

(** ** Further properties of the code *)

(** *** [Unlerp] *)

(** The delta [Unlerp] divides by, for two different binary32 endpoints,
    is neither a zero nor a NaN. *)
Lemma Unlerp_divisor_nonzero (start end_ : Point) :
  binary32_point start = true -> binary32_point end_ = true ->
  same_point start end_ = false ->
  F32.nonzero_number
    (if F32.gtb (F32.abs (F32.sub (x end_) (x start)))
                (F32.abs (F32.sub (y end_) (y start)))
     then F32.sub (x end_) (x start) else F32.sub (y end_) (y start)) = true.
Proof.
  unfold binary32_point, same_point. intros Pa Pb Hne.
  apply andb_true_iff in Pa, Pb. destruct Pa as [Pxa Pya], Pb as [Pxb Pyb].
  destruct (F32Facts.sub_nonzero _ _ Pxb Pxa) as [Nx Zx].
  destruct (F32Facts.sub_nonzero _ _ Pyb Pya) as [Ny Zy].
  destruct (F32.gtb _ _) eqn:Hgt.
  - exact (F32Facts.ltb_abs_nonzero _ _ Hgt).
  - destruct (F32.eqb (y end_) (y start)) eqn:Ey; [| exact Ny].
    rewrite andb_true_r in Hne. rewrite Hne in Nx.
    rewrite (F32Facts.gtb_abs_zero _ _ Nx Zy) in Hgt. discriminate.
Qed.

(** X1.  For a segment between two different binary32 points whose deltas
    do not overflow, [Unlerp] is a zero at the first endpoint and exactly
    [1.0] at the second. *)
Theorem Unlerp_at_endpoints (start end_ : Point) :
  binary32_point start = true -> binary32_point end_ = true ->
  same_point start end_ = false ->
  F32.is_finite (F32.sub (x end_) (x start)) = true ->
  F32.is_finite (F32.sub (y end_) (y start)) = true ->
  F32.is_zero (Unlerp start end_ start) = true /\
  Unlerp start end_ end_ = F32.one.
Proof.
  intros Pa Pb Hne Fx Fy.
  pose proof (Unlerp_divisor_nonzero start end_ Pa Pb Hne) as Hd.
  unfold binary32_point in Pa. apply andb_true_iff in Pa. destruct Pa as [Pxa Pya].
  destruct (F32Facts.proper_inv _ Pxa) as [_ Fxa].
  destruct (F32Facts.proper_inv _ Pya) as [_ Fya].
  unfold Unlerp.
  rewrite (F32Facts.sub_diag_finite _ Fxa), (F32Facts.sub_diag_finite _ Fya).
  destruct (F32.gtb _ _).
  - destruct (F32.sub (x end_) (x start)) as [s | s | | s m e]; try discriminate.
    split; [reflexivity | apply F32Facts.div_diag].
  - destruct (F32.sub (y end_) (y start)) as [s | s | | s m e]; try discriminate.
    split; [reflexivity | apply F32Facts.div_diag].
Qed.

Lemma Unlerp_at_endpoints_witness :
  F32.is_zero (Unlerp (pt 2 1 3 1) (pt 5 1 3 1) (pt 2 1 3 1)) = true /\
  Unlerp (pt 2 1 3 1) (pt 5 1 3 1) (pt 5 1 3 1) = F32.one.
Proof.
  apply (Unlerp_at_endpoints (pt 2 1 3 1) (pt 5 1 3 1)); vm_compute; reflexivity.
Defined.

(** X2.  [Unlerp] divides by zero exactly on zero-length segments: for
    binary32 points and deltas that do not overflow, the result is an
    infinity or a NaN when the endpoints are the same point, and is never a
    NaN when they differ. *)
Theorem Unlerp_divides_by_zero_iff (start end_ p : Point) :
  binary32_point start = true -> binary32_point end_ = true ->
  binary32_point p = true ->
  F32.is_finite (F32.sub (x end_) (x start)) = true ->
  F32.is_finite (F32.sub (y end_) (y start)) = true ->
  (same_point start end_ = true -> F32.is_finite (Unlerp start end_ p) = false) /\
  (same_point start end_ = false -> F32.is_nan (Unlerp start end_ p) = false).
Proof.
  intros Pa Pb Pp Fx Fy. split; intros Hsame.
  - unfold binary32_point, same_point in *.
    apply andb_true_iff in Pa, Pb, Hsame.
    destruct Pa as [Pxa Pya], Pb as [Pxb Pyb], Hsame as [Ex Ey].
    destruct (F32Facts.sub_nonzero _ _ Pxb Pxa) as [_ Zx].
    destruct (F32Facts.sub_nonzero _ _ Pyb Pya) as [_ Zy].
    rewrite Ex in Zx. rewrite Ey in Zy. unfold Unlerp.
    destruct (F32.sub (x end_) (x start)); try discriminate.
    destruct (F32.sub (y end_) (y start)); try discriminate.
    cbn [F32.abs SFabs F32.gtb SFltb SFcompare].
    now apply F32Facts.div_by_zero.
  - pose proof (Unlerp_divisor_nonzero start end_ Pa Pb Hsame) as Hd.
    unfold binary32_point in Pa, Pp. apply andb_true_iff in Pa, Pp.
    destruct Pa as [Pxa Pya], Pp as [Pxp Pyp].
    unfold Unlerp. destruct (F32.gtb _ _).
    + apply F32Facts.div_not_nan; [now apply F32Facts.sub_not_nan |].
      destruct (F32.sub (x end_) (x start)); try discriminate; reflexivity.
    + apply F32Facts.div_not_nan; [now apply F32Facts.sub_not_nan |].
      destruct (F32.sub (y end_) (y start)); try discriminate; reflexivity.
Qed.

Lemma Unlerp_divides_by_zero_iff_witness :
  (same_point (pt 2 1 3 1) (pt 5 1 3 1) = true ->
   F32.is_finite (Unlerp (pt 2 1 3 1) (pt 5 1 3 1) (pt 35 10 3 1)) = false) /\
  (same_point (pt 2 1 3 1) (pt 5 1 3 1) = false ->
   F32.is_nan (Unlerp (pt 2 1 3 1) (pt 5 1 3 1) (pt 35 10 3 1)) = false).
Proof.
  apply (Unlerp_divides_by_zero_iff (pt 2 1 3 1) (pt 5 1 3 1) (pt 35 10 3 1));
    vm_compute; reflexivity.
Defined.

(** *** [GridCoordinates] *)

(** X3.  The lower corner of the region is in cell (0, 0), for every grid
    whose lower bounds are binary32 numbers and whose cell sizes are
    neither a zero nor a NaN. *)
Theorem GridCoordinates_of_lower_corner (g : GridRangeQuery) :
  F32.proper (minx (bbox_ g)) = true -> F32.proper (miny (bbox_ g)) = true ->
  F32.nonzero_number (cell_width_ g) = true ->
  F32.nonzero_number (cell_height_ g) = true ->
  GridCoordinates g (mkPoint (minx (bbox_ g)) (miny (bbox_ g))) = Some (0, 0).
Proof.
  intros Px Py Hw Hh.
  destruct (F32Facts.proper_inv _ Px) as [_ Fx].
  destruct (F32Facts.proper_inv _ Py) as [_ Fy].
  unfold GridCoordinates; cbn [x y].
  rewrite (F32Facts.sub_diag_finite _ Fx), (F32Facts.sub_diag_finite _ Fy).
  destruct (cell_width_ g) as [s | s | | s m e]; try discriminate;
    destruct (cell_height_ g) as [t | t | | t k d]; try discriminate; reflexivity.
Qed.

Lemma GridCoordinates_of_lower_corner_witness :
  GridCoordinates grid50 (mkPoint (minx (bbox_ grid50)) (miny (bbox_ grid50)))
  = Some (0, 0).
Proof.
  apply (GridCoordinates_of_lower_corner grid50); vm_compute; reflexivity.
Defined.

(** X4.  The cell coordinates are the two binary32 quotients rounded
    toward zero, not down: a point less than one cell below a lower bound
    of the region gets coordinate 0, like the points of the first column
    or row. *)
Theorem GridCoordinates_truncates (g : GridRangeQuery) (p : Point) (c r : Z) :
  GridCoordinates g p = Some (c, r) ->
  c = F32.Qtrunc
        (F32.to_Q (F32.div (F32.sub (x p) (minx (bbox_ g))) (cell_width_ g))) /\
  r = F32.Qtrunc
        (F32.to_Q (F32.div (F32.sub (y p) (miny (bbox_ g))) (cell_height_ g))).
Proof.
  intros H. destruct (GridCoordinates_inv _ _ _ _ H) as [Hc Hr].
  split; apply F32Facts.trunc_Qtrunc; now apply F32Facts.to_int_trunc.
Qed.

Lemma GridCoordinates_truncates_witness :
  0 = F32.Qtrunc
        (F32.to_Q (F32.div (F32.sub (x outside_point) (minx (bbox_ unit_grid)))
                           (cell_width_ unit_grid))) /\
  0 = F32.Qtrunc
        (F32.to_Q (F32.div (F32.sub (y outside_point) (miny (bbox_ unit_grid)))
                           (cell_height_ unit_grid))).
Proof.
  apply (GridCoordinates_truncates unit_grid outside_point 0 0).
  vm_compute. reflexivity.
Defined.

(** X5.  [GridCoordinates] checks nothing about its argument: for a point
    with an infinite or NaN coordinate, the difference and the quotient
    are an infinity or a NaN on every grid, and the [int] conversion is
    undefined. *)
Theorem GridCoordinates_of_non_finite_point (g : GridRangeQuery) (p : Point) :
  F32.is_finite (x p) = false \/ F32.is_finite (y p) = false ->
  GridCoordinates g p = None.
Proof.
  intros [H | H]; unfold GridCoordinates.
  - now rewrite (F32Facts.to_int_not_finite _
                   (F32Facts.div_not_finite _ (cell_width_ g)
                      (F32Facts.sub_not_finite _ (minx (bbox_ g)) H))).
  - rewrite (F32Facts.to_int_not_finite _
               (F32Facts.div_not_finite _ (cell_height_ g)
                  (F32Facts.sub_not_finite _ (miny (bbox_ g)) H))).
    now destruct (F32.to_int _).
Qed.

Lemma GridCoordinates_of_non_finite_point_witness :
  GridCoordinates unit_grid (mkPoint F32.nan (F32.of_dec 137 10)) = None.
Proof.
  apply (GridCoordinates_of_non_finite_point unit_grid
           (mkPoint F32.nan (F32.of_dec 137 10))).
  left. reflexivity.
Defined.

(** X6.  A point not below the lower bounds of the region (binary32
    coordinates, positive cell sizes) never gets a negative cell
    coordinate. *)
Theorem GridCoordinates_not_negative (g : GridRangeQuery) (p : Point) (c r : Z) :
  GridCoordinates g p = Some (c, r) ->
  F32.proper (x p) = true -> F32.proper (y p) = true ->
  F32.proper (minx (bbox_ g)) = true -> F32.proper (miny (bbox_ g)) = true ->
  F32.geb (x p) (minx (bbox_ g)) = true -> F32.geb (y p) (miny (bbox_ g)) = true ->
  F32.ltb F32.zero (cell_width_ g) = true ->
  F32.ltb F32.zero (cell_height_ g) = true ->
  0 <= c /\ 0 <= r.
Proof.
  intros H Px Py Pminx Pminy Gx Gy Hw Hh.
  destruct (GridCoordinates_inv _ _ _ _ H) as [Hc Hr].
  assert (Haxis : forall q n,
             F32.negative q = false -> F32.to_int q = Some n -> 0 <= n).
  { intros q n Hneg Hq. apply F32Facts.to_int_trunc in Hq.
    destruct q as [s | s | | s m e]; try discriminate.
    - injection Hq as <-. lia.
    - destruct s; [discriminate |]. injection Hq as <-. cbn [cond_Zopp].
      apply Z.shiftl_nonneg. lia. }
  split;
    [apply (Haxis _ _ (axis_quotient_not_negative _ _ _ Px Pminx Gx Hw) Hc)
    |apply (Haxis _ _ (axis_quotient_not_negative _ _ _ Py Pminy Gy Hh) Hr)].
Qed.

Lemma GridCoordinates_not_negative_witness : 0 <= 9 /\ 0 <= 9.
Proof.
  apply (GridCoordinates_not_negative grid50 (pt 18 10 18 10) 9 9);
    vm_compute; reflexivity.
Defined.

(** *** [Init] and the constructors *)

(** X7.  [Init] validates nothing: with a cell width or height that is a
    zero or a NaN, a quotient is an infinity or a NaN and its conversion to
    [size_t] is undefined. *)
Theorem Init_degenerate_cell (items : list (list GraphId)) (bb : BoundingBox)
    (cell_width cell_height : F32.float) :
  F32.nonzero_number cell_width = false \/ F32.nonzero_number cell_height = false ->
  Init items bb cell_width cell_height = None.
Proof.
  intros [H | H]; unfold Init.
  - now rewrite (F32Facts.ceil_to_size_not_finite _ (F32Facts.div_by_zero _ _ H)).
  - rewrite (F32Facts.ceil_to_size_not_finite _
               (F32Facts.div_by_zero (Height bb) _ H)).
    now destruct (F32.ceil_to_size _).
Qed.

Lemma Init_degenerate_cell_witness :
  Init [] test_bbox F32.zero F32.one = None.
Proof.
  apply (Init_degenerate_cell [] test_bbox F32.zero F32.one).
  left. reflexivity.
Defined.

Lemma resize_nil (n : nat) : resize n [] = repeat [] n.
Proof.
  unfold resize. rewrite firstn_nil. cbn [app length]. now rewrite Nat.sub_0_r.
Qed.

Lemma Forall_repeat_nil (n : nat) :
  Forall (fun bucket : list GraphId => bucket = []) (repeat [] n).
Proof. induction n; cbn; constructor; auto. Qed.

Lemma Init_nil_buckets (bb : BoundingBox) (cell_width cell_height : F32.float)
    (g : GridRangeQuery) :
  Init [] bb cell_width cell_height = Some g ->
  Forall (fun bucket => bucket = []) (items_ g) /\
  length (items_ g) = Z.to_nat (wrap_size (num_cols_ g * num_rows_ g)).
Proof.
  intros H. split; [| exact (proj2 (proj2 (Init_counts _ _ _ _ _ H)))].
  revert H. unfold Init.
  destruct (F32.ceil_to_size _) as [rows |]; [| discriminate].
  destruct (F32.ceil_to_size _) as [cols |]; [| discriminate].
  intros [= <-]. cbn [items_]. rewrite resize_nil. apply Forall_repeat_nil.
Qed.

(** X8.  A grid built by either constructor has
    [num_cols_ * num_rows_] (modulo [2^64]) buckets, all of them empty. *)
Theorem constructed_grid_has_empty_buckets :
  (forall bb cell_width cell_height g,
      new_by_cell_size bb cell_width cell_height = Some g ->
      Forall (fun bucket => bucket = []) (items_ g) /\
      length (items_ g) = Z.to_nat (wrap_size (num_cols_ g * num_rows_ g))) /\
  (forall bb num_cols num_rows g,
      new_by_counts bb num_cols num_rows = Some g ->
      Forall (fun bucket => bucket = []) (items_ g) /\
      length (items_ g) = Z.to_nat (wrap_size (num_cols_ g * num_rows_ g))).
Proof.
  split.
  - intros bb cw ch g. apply Init_nil_buckets.
  - intros bb nc nr g. apply Init_nil_buckets.
Qed.

(** *** [AddLineSegment] *)

(** [push_back_at] appends to one bucket and leaves the others. *)
Lemma push_back_at_nth (items items' : list (list GraphId)) (index : nat)
    (edgeid : GraphId) :
  push_back_at items index edgeid = Some items' ->
  length items' = length items /\
  forall j, nth j items' [] =
            if Nat.eqb j index then nth j items [] ++ [edgeid] else nth j items [].
Proof.
  revert items' index. induction items as [| bucket rest IH]; intros items' index.
  - discriminate.
  - destruct index as [| n]; cbn [push_back_at].
    + intros [= <-]. split; [reflexivity |]. intros [| j]; reflexivity.
    + destruct (push_back_at rest n edgeid) as [rest' |] eqn:E; [| discriminate].
      intros [= <-]. destruct (IH _ _ E) as [Hlen Hnth].
      split; [cbn; now rewrite Hlen |]. intros [| j]; [reflexivity | apply Hnth].
Qed.

(** What one iteration does to the grid. *)
Lemma loop_body_effect (edgeid : GraphId) (g g' : GridRangeQuery) (p p' : Point) :
  loop_body edgeid (g, p) = Some (g', p') ->
  exists cell,
    GridCoordinates g p = Some cell /\
    g' = set_items g (items_ g') /\
    length (items_ g') = length (items_ g) /\
    forall j, nth j (items_ g') [] =
              if Nat.eqb j (Z.to_nat (bucket_index g cell))
              then nth j (items_ g) [] ++ [edgeid] else nth j (items_ g) [].
Proof.
  unfold loop_body.
  destruct (GridCoordinates g p) as [cell |]; [| discriminate].
  destruct (push_back_at _ _ _) as [items' |] eqn:E; [| discriminate].
  intros [= <- <-]. exists cell. destruct (push_back_at_nth _ _ _ _ E) as [Hlen Hnth].
  cbn [set_items items_]. auto.
Qed.

(** Invariant of the loop: the geometry and the number of buckets stay,
    and each bucket only grows, by copies of [edgeid]. *)
Lemma loop_invariant (edgeid : GraphId) (start end_ : Point) (fuel : nat) :
  forall st,
    let g := fst st in
    let g' := grid_of (loop fuel edgeid start end_ st) in
    g' = set_items g (items_ g') /\
    length (items_ g') = length (items_ g) /\
    forall j, exists n, nth j (items_ g') [] = nth j (items_ g) [] ++ repeat edgeid n.
Proof.
  assert (Hrefl : forall g : GridRangeQuery,
             g = set_items g (items_ g) /\
             length (items_ g) = length (items_ g) /\
             forall j, exists n,
               nth j (items_ g) [] = nth j (items_ g) [] ++ repeat edgeid n).
  { intros g. split; [now destruct g |]. split; [reflexivity |].
    intros j. exists O. cbn. now rewrite app_nil_r. }
  induction fuel as [| fuel IH]; intros [g p]; cbn [loop fst];
    destruct (loop_guard start end_ (g, p)); cbn [grid_of fst]; try apply Hrefl.
  destruct (loop_body edgeid (g, p)) as [[g1 p1] |] eqn:Hbody;
    cbn [grid_of fst]; try apply Hrefl.
  destruct (loop_body_effect _ _ _ _ _ Hbody) as (cell & _ & Hg1 & Hlen1 & Hnth1).
  specialize (IH (g1, p1)). cbn [fst] in IH. cbv zeta in IH.
  destruct IH as (Hg' & Hlen & Hnth).
  set (g' := grid_of (loop fuel edgeid start end_ (g1, p1))) in *.
  split; [| split].
  - rewrite Hg', Hg1. reflexivity.
  - congruence.
  - intros j. destruct (Hnth j) as [n Hn]. rewrite Hn, Hnth1.
    destruct (Nat.eqb j _).
    + exists (S n). rewrite <- app_assoc. reflexivity.
    + now exists n.
Qed.

Lemma AddLineSegment_invariant (fuel : nat) (g : GridRangeQuery) (edgeid : GraphId)
    (segment : LineSegment) :
  let g' := grid_of (AddLineSegment fuel g edgeid segment) in
  g' = set_items g (items_ g') /\
  length (items_ g') = length (items_ g) /\
  forall j, exists n, nth j (items_ g') [] = nth j (items_ g) [] ++ repeat edgeid n.
Proof.
  unfold AddLineSegment. destruct (_ && _).
  - apply (loop_invariant edgeid (a segment) (b segment) fuel (g, a segment)).
  - cbn [grid_of]. split; [now destruct g |]. split; [reflexivity |].
    intros j. exists O. cbn. now rewrite app_nil_r.
Qed.

(** X9.  As long as a call of [AddLineSegment] has reached no undefined
    operation (it has returned, it has aborted at the assertion, or it is
    still in its loop after any number of iterations), it has changed
    bucket contents only: [bbox()], the cell sizes, the two counts and
    the number of buckets are as before, and so is the cell of every
    point. *)
Theorem AddLineSegment_keeps_geometry (fuel : nat) (g : GridRangeQuery)
    (edgeid : GraphId) (segment : LineSegment) :
  well_defined (AddLineSegment fuel g edgeid segment) = true ->
  let g' := grid_of (AddLineSegment fuel g edgeid segment) in
  bbox g' = bbox g /\
  cell_width_ g' = cell_width_ g /\ cell_height_ g' = cell_height_ g /\
  num_rows_ g' = num_rows_ g /\ num_cols_ g' = num_cols_ g /\
  length (items_ g') = length (items_ g) /\
  (forall p, GridCoordinates g' p = GridCoordinates g p).
Proof.
  intros _.
  destruct (AddLineSegment_invariant fuel g edgeid segment) as (Hg' & Hlen & _).
  cbv zeta. set (g' := grid_of _) in *. rewrite Hg'.
  repeat split; try reflexivity. exact Hlen.
Qed.

Lemma AddLineSegment_keeps_geometry_witness :
  let g' := grid_of (AddLineSegment 3 unit_grid 7 grid_line_segment) in
  bbox g' = bbox unit_grid /\
  cell_width_ g' = cell_width_ unit_grid /\
  cell_height_ g' = cell_height_ unit_grid /\
  num_rows_ g' = num_rows_ unit_grid /\ num_cols_ g' = num_cols_ unit_grid /\
  length (items_ g') = length (items_ unit_grid) /\
  (forall p, GridCoordinates g' p = GridCoordinates unit_grid p).
Proof.
  apply (AddLineSegment_keeps_geometry 3 unit_grid 7 grid_line_segment).
  vm_compute. reflexivity.
Defined.

(** X10.  As long as a call of [AddLineSegment] has reached no undefined
    operation, it has only appended, and only the identifier it was
    given: each bucket is the bucket as it was followed by some number of
    copies of [edgeid].  No identifier recorded before is removed or
    moved. *)
Theorem AddLineSegment_only_appends (fuel : nat) (g : GridRangeQuery)
    (edgeid : GraphId) (segment : LineSegment) (j : nat) :
  well_defined (AddLineSegment fuel g edgeid segment) = true ->
  exists n,
    nth j (items_ (grid_of (AddLineSegment fuel g edgeid segment))) []
    = nth j (items_ g) [] ++ repeat edgeid n.
Proof.
  intros _.
  destruct (AddLineSegment_invariant fuel g edgeid segment) as (_ & _ & H).
  apply H.
Qed.

Lemma AddLineSegment_only_appends_witness :
  exists n,
    nth 302 (items_ (grid_of (AddLineSegment 3 unit_grid 7 grid_line_segment))) []
    = nth 302 (items_ unit_grid) [] ++ repeat 7 n.
Proof.
  apply (AddLineSegment_only_appends 3 unit_grid 7 grid_line_segment 302).
  vm_compute. reflexivity.
Defined.

(** An entered loop whose cell has a bucket: after [n] iterations it is
    still running and that bucket has [n] more copies of [edgeid]. *)
Lemma loop_fills_one_bucket (edgeid : GraphId) (start end_ p : Point) (cell : Z * Z)
    (n : nat) :
  forall g,
    loop_guard start end_ (g, p) = true ->
    GridCoordinates g p = Some cell ->
    (Z.to_nat (bucket_index g cell) < length (items_ g))%nat ->
    exists g',
      loop n edgeid start end_ (g, p) = StillRunning g' /\
      nth (Z.to_nat (bucket_index g cell)) (items_ g') []
      = nth (Z.to_nat (bucket_index g cell)) (items_ g) [] ++ repeat edgeid n /\
      forall j, j <> Z.to_nat (bucket_index g cell) ->
                nth j (items_ g') [] = nth j (items_ g) [].
Proof.
  induction n as [| n IH]; intros g Hguard Hcell Hrange; cbn [loop]; rewrite Hguard.
  - exists g. cbn [fst repeat]. rewrite app_nil_r. auto.
  - destruct (loop_body edgeid (g, p)) as [[g1 p1] |] eqn:Hbody.
    + pose proof (loop_guard_invariant edgeid start end_ _ _ Hbody) as Hguard1.
      pose proof (loop_body_current_point _ _ _ Hbody) as Hp. cbn [snd] in Hp. subst p1.
      destruct (loop_body_effect _ _ _ _ _ Hbody)
        as (cell' & Hcell' & Hg1 & Hlen1 & Hnth1).
      rewrite Hcell in Hcell'. injection Hcell' as <-.
      assert (Hsame : bucket_index g1 cell = bucket_index g cell)
        by (rewrite Hg1; reflexivity).
      assert (Hcell1 : GridCoordinates g1 p = Some cell)
        by (rewrite Hg1; exact Hcell).
      destruct (IH g1) as (g' & Hrun & Hidx & Hother).
      * now rewrite Hguard1.
      * exact Hcell1.
      * rewrite Hsame, Hlen1. exact Hrange.
      * exists g'. rewrite Hsame in Hidx, Hother. split; [exact Hrun |]. split.
        -- rewrite Hidx, Hnth1, Nat.eqb_refl, <- app_assoc. reflexivity.
        -- intros j Hj. rewrite (Hother j Hj), Hnth1.
           now rewrite (proj2 (Nat.eqb_neq _ _) Hj).
    + exfalso. unfold loop_body in Hbody. rewrite Hcell in Hbody.
      destruct (push_back_at _ _ _) eqn:E; [discriminate |].
      now apply (push_back_at_in_range _ _ edgeid) in Hrange.
Qed.

Lemma entered (g : GridRangeQuery) (segment : LineSegment) :
  binary32_point (a segment) = true -> binary32_point (b segment) = true ->
  same_point (a segment) (b segment) = false ->
  loop_guard (a segment) (b segment) (g, a segment) = true.
Proof.
  unfold binary32_point, same_point. intros Pa Pb Hne.
  apply andb_true_iff in Pa, Pb. destruct Pa, Pb. now apply loop_entered.
Qed.

(** X11.  For a segment inside the region between two different binary32
    points whose first endpoint is in a cell that has a bucket: after [n]
    iterations the call is still in its loop, exactly [n] copies of the
    identifier have been appended to that one bucket, and every other
    bucket is as it was. *)
Theorem AddLineSegment_fills_start_bucket (n : nat) (g : GridRangeQuery)
    (edgeid : GraphId) (segment : LineSegment) (cell : Z * Z) :
  binary32_point (a segment) = true -> binary32_point (b segment) = true ->
  Contains (bbox_ g) (a segment) && Contains (bbox_ g) (b segment) = true ->
  same_point (a segment) (b segment) = false ->
  GridCoordinates g (a segment) = Some cell ->
  (Z.to_nat (bucket_index g cell) < length (items_ g))%nat ->
  exists g',
    AddLineSegment n g edgeid segment = StillRunning g' /\
    nth (Z.to_nat (bucket_index g cell)) (items_ g') []
    = nth (Z.to_nat (bucket_index g cell)) (items_ g) [] ++ repeat edgeid n /\
    forall j, j <> Z.to_nat (bucket_index g cell) ->
              nth j (items_ g') [] = nth j (items_ g) [].
Proof.
  intros Pa Pb Hassert Hne Hcell Hrange.
  unfold AddLineSegment. rewrite Hassert.
  apply loop_fills_one_bucket; try assumption. now apply entered.
Qed.

Lemma AddLineSegment_fills_start_bucket_witness :
  exists g',
    AddLineSegment 3 unit_grid 7 grid_line_segment = StillRunning g' /\
    nth (Z.to_nat (bucket_index unit_grid (2, 3))) (items_ g') []
    = nth (Z.to_nat (bucket_index unit_grid (2, 3))) (items_ unit_grid) []
      ++ repeat 7 3 /\
    forall j, j <> Z.to_nat (bucket_index unit_grid (2, 3)) ->
              nth j (items_ g') [] = nth j (items_ unit_grid) [].
Proof.
  apply (AddLineSegment_fills_start_bucket 3 unit_grid 7 grid_line_segment (2, 3));
    try (vm_compute; reflexivity).
  apply Nat.ltb_lt. vm_compute. reflexivity.
Defined.

(** X12.  Nothing but the assertion guards the bucket access: for such a
    segment whose first endpoint is in a cell without a bucket, the first
    iteration indexes [items_] out of range (undefined behaviour), with no
    bucket changed. *)
Theorem AddLineSegment_start_cell_without_bucket (fuel : nat) (g : GridRangeQuery)
    (edgeid : GraphId) (segment : LineSegment) (cell : Z * Z) :
  binary32_point (a segment) = true -> binary32_point (b segment) = true ->
  Contains (bbox_ g) (a segment) && Contains (bbox_ g) (b segment) = true ->
  same_point (a segment) (b segment) = false ->
  GridCoordinates g (a segment) = Some cell ->
  (length (items_ g) <= Z.to_nat (bucket_index g cell))%nat ->
  AddLineSegment (S fuel) g edgeid segment = Undefined g.
Proof.
  intros Pa Pb Hassert Hne Hcell Hrange.
  unfold AddLineSegment. rewrite Hassert.
  apply (loop_undefined edgeid (a segment) (b segment) fuel (g, a segment)).
  - now apply entered.
  - unfold loop_body. rewrite Hcell.
    destruct (push_back_at _ _ _) eqn:E; [| reflexivity].
    exfalso.
    assert (Hlt : (Z.to_nat (bucket_index g cell) < length (items_ g))%nat)
      by (apply (push_back_at_in_range _ _ edgeid); congruence).
    lia.
Qed.

Lemma AddLineSegment_start_cell_without_bucket_witness :
  AddLineSegment 1 grid3 7 edge_segment = Undefined grid3.
Proof.
  apply (AddLineSegment_start_cell_without_bucket 0 grid3 7 edge_segment (3, 2));
    first [vm_compute; reflexivity | apply Nat.leb_le; vm_compute; reflexivity].
Defined.

(** *** The layout of the buckets *)

(** X13.  The layout is consistent: a cell with column below [num_rows_]
    and row below [num_cols_] has its bucket inside the vector, and two
    such cells never share a bucket. *)
Theorem bucket_index_injective (g : GridRangeQuery) (c r c' r' : Z) :
  0 <= c < num_rows_ g -> 0 <= r < num_cols_ g ->
  0 <= c' < num_rows_ g -> 0 <= r' < num_cols_ g ->
  num_cols_ g * num_rows_ g < size_max ->
  0 <= bucket_index g (c, r) < num_cols_ g * num_rows_ g /\
  (bucket_index g (c, r) = bucket_index g (c', r') -> c = c' /\ r = r').
Proof.
  intros Hc Hr Hc' Hr' Hmax.
  destruct (bucket_index_in_range g c r Hc Hr Hmax) as [E1 R1].
  destruct (bucket_index_in_range g c' r' Hc' Hr' Hmax) as [E2 _].
  split; [exact R1 |]. rewrite E1, E2. intros H.
  assert (r = r') by nia. subst r'. split; [lia | reflexivity].
Qed.

Lemma bucket_index_injective_witness :
  0 <= bucket_index wide_grid (150, 3) < num_cols_ wide_grid * num_rows_ wide_grid /\
  (bucket_index wide_grid (150, 3) = bucket_index wide_grid (5, 7) ->
   150 = 5 /\ 3 = 7).
Proof.
  apply (bucket_index_injective wide_grid 150 3 5 7); vm_compute;
    intuition discriminate.
Defined.

Lemma bucket_index_next_row (g : GridRangeQuery) (c r : Z) :
  bucket_index g (c + num_rows_ g, r) = bucket_index g (c, r + 1).
Proof. unfold bucket_index, wrap_size; cbn [fst snd]. f_equal. ring. Qed.

(** X14.  A column past the last is not rejected but wraps into the next
    row: for such a segment whose first endpoint gets column
    [c + num_rows_] in a row [r] that is not the last, the bucket that is
    filled is the bucket of cell [(c, r + 1)]. *)
Theorem AddLineSegment_column_past_last_wraps (n : nat) (g : GridRangeQuery)
    (edgeid : GraphId) (segment : LineSegment) (c r : Z) :
  binary32_point (a segment) = true -> binary32_point (b segment) = true ->
  Contains (bbox_ g) (a segment) && Contains (bbox_ g) (b segment) = true ->
  same_point (a segment) (b segment) = false ->
  GridCoordinates g (a segment) = Some (c + num_rows_ g, r) ->
  0 <= c < num_rows_ g -> 0 <= r -> r + 1 < num_cols_ g ->
  num_cols_ g * num_rows_ g < size_max ->
  length (items_ g) = Z.to_nat (num_cols_ g * num_rows_ g) ->
  exists g',
    AddLineSegment n g edgeid segment = StillRunning g' /\
    nth (Z.to_nat (bucket_index g (c, r + 1))) (items_ g') []
    = nth (Z.to_nat (bucket_index g (c, r + 1))) (items_ g) [] ++ repeat edgeid n.
Proof.
  intros Pa Pb Hassert Hne Hcell Hc Hr Hr1 Hmax Hlen.
  destruct (bucket_index_in_range g c (r + 1) Hc ltac:(lia) Hmax) as [_ Hin].
  rewrite <- bucket_index_next_row in *.
  unfold AddLineSegment. rewrite Hassert.
  destruct (loop_fills_one_bucket edgeid (a segment) (b segment) (a segment)
              (c + num_rows_ g, r) n g) as (g' & Hrun & Hidx & _).
  - now apply entered.
  - exact Hcell.
  - rewrite Hlen. lia.
  - exists g'. split; assumption.
Qed.

Lemma AddLineSegment_column_past_last_wraps_witness :
  exists g',
    AddLineSegment 2 grid3 7 wrapping_segment = StillRunning g' /\
    nth (Z.to_nat (bucket_index grid3 (0, 1 + 1))) (items_ g') []
    = nth (Z.to_nat (bucket_index grid3 (0, 1 + 1))) (items_ grid3) [] ++ repeat 7 2.
Proof.
  apply (AddLineSegment_column_past_last_wraps 2 grid3 7 wrapping_segment 0 1);
    vm_compute; try reflexivity; intuition discriminate.
Defined.

(** *** [CellBoundingBox] *)

Lemma eqb_refl_finite (v : F32.float) : F32.is_finite v = true -> F32.eqb v v = true.
Proof.
  destruct v as [s | s | | s m e]; try discriminate; intros _; [reflexivity |].
  unfold F32.eqb, SFeqb, SFcompare.
  destruct s; rewrite Z.compare_refl;
    change (Pos.compare_cont Eq m m) with (Pos.compare m m);
    now rewrite Pos.compare_refl.
Qed.

(** Adding the product of [0] and a finite cell size changes no value. *)
Lemma add_zero_cells (lo size : F32.float) :
  F32.is_finite lo = true -> F32.is_finite size = true ->
  F32.eqb (F32.add lo (F32.mul (F32.of_Z 0) size)) lo = true.
Proof.
  intros Hlo Hsize.
  assert (Hz : exists t, F32.mul (F32.of_Z 0) size = S754_zero t)
    by (destruct size as [t | t | | t k d]; try discriminate; eexists; reflexivity).
  destruct Hz as [t ->].
  destruct lo as [s | s | | s m e]; try discriminate.
  - now destruct s, t.
  - change (F32.add (S754_finite s m e) (S754_zero t)) with (S754_finite s m e).
    now apply eqb_refl_finite.
Qed.

(** X15.  The boxes of the cells are anchored at the lower corner of the
    region: for finite lower bounds and cell sizes, the box of cell (0, 0)
    starts at that corner ([minx + 0 * cell_width] is [minx] again, a zero
    of either sign when [minx] is one). *)
Theorem CellBoundingBox_of_first_cell (g : GridRangeQuery) :
  F32.is_finite (minx (bbox_ g)) = true -> F32.is_finite (miny (bbox_ g)) = true ->
  F32.is_finite (cell_width_ g) = true -> F32.is_finite (cell_height_ g) = true ->
  F32.eqb (minx (CellBoundingBox g 0 0)) (minx (bbox_ g)) = true /\
  F32.eqb (miny (CellBoundingBox g 0 0)) (miny (bbox_ g)) = true.
Proof.
  intros Fx Fy Fw Fh. unfold CellBoundingBox; cbn [minx miny maxx maxy].
  split; now apply add_zero_cells.
Qed.

Lemma CellBoundingBox_of_first_cell_witness :
  F32.eqb (minx (CellBoundingBox grid50 0 0)) (minx (bbox_ grid50)) = true /\
  F32.eqb (miny (CellBoundingBox grid50 0 0)) (miny (bbox_ grid50)) = true.
Proof.
  apply (CellBoundingBox_of_first_cell grid50); reflexivity.
Defined.
